(** * C1GamesStarterKit: the starter strategy of [python-algo/algo_strategy.py]

    A shallow embedding of [AlgoStrategy]: the threat estimator
    ([compute_damage], [least_damage_spawn_location],
    [enemy_least_damage_target]), the turn planner ([starter_strategy]) and
    the breach tracker ([on_action_frame]), with the properties the
    specification states about them.

    Conventions of the embedding.
    - Python numbers are exact rationals ([Q]); [==] on them is [Qeq].
    - A Python exception is a value of [PyExc]; code that may raise returns
      [Exc A], and code that also mutates an object is a [Prog S A], whose
      state survives an exception as the mutated object does.
    - [gamelib] (the game engine's client library) is not part of the
      sources: the strategy is written against the interface [GameLib]. *)

From Stdlib Require Import String Ascii.
From Stdlib Require Import List ZArith QArith Bool Lia Lqa.
From Stdlib Require Import Floats.SpecFloat.
Import ListNotations.

Local Open Scope Z_scope.

#[local] Set Warnings "-register-all".

(** ** Python values and primitives *)

Inductive PyExc : Type :=
| ValueError
| IndexError
| KeyError
| TypeError.

Definition Exc (A : Type) : Type := (PyExc + A)%type.

Definition raise {A : Type} (e : PyExc) : Exc A := inl e.

Definition exc_bind {A B : Type} (m : Exc A) (k : A -> Exc B) : Exc B :=
  match m with
  | inl e => inl e
  | inr a => k a
  end.

Declare Scope exc_scope.
Delimit Scope exc_scope with exc.
Notation "x <- m ;; k" := (exc_bind m (fun x => k))
  (at level 61, m at next level, right associativity) : exc_scope.

(** [a < b] on numbers, as a boolean. *)
Definition Qlt_bool (a b : Q) : bool := negb (Qle_bool b a).

(** The running minimum of [min(xs)]: the first element is kept until a
    strictly smaller one is met. *)
Fixpoint min_from (m : Q) (xs : list Q) : Q :=
  match xs with
  | [] => m
  | x :: xs' => min_from (if Qlt_bool x m then x else m) xs'
  end.

(** [min(xs)]; [ValueError] on the empty list. *)
Definition py_min (xs : list Q) : Exc Q :=
  match xs with
  | [] => raise ValueError
  | x :: xs' => inr (min_from x xs')
  end.

(** [xs.index(v)]: the position of the first element equal to [v];
    [ValueError] when there is none. *)
Fixpoint py_index (xs : list Q) (v : Q) : Exc Z :=
  match xs with
  | [] => raise ValueError
  | x :: xs' =>
      if Qeq_bool x v then inr 0
      else exc_bind (py_index xs' v) (fun i => inr (i + 1))
  end.

(** [xs[i]] on a list: a negative index counts from the end; [IndexError]
    out of range. *)
Definition py_getitem {A : Type} (xs : list A) (i : Z) : Exc A :=
  let n := Z.of_nat (length xs) in
  let j := if i <? 0 then i + n else i in
  if (j <? 0) || (n <=? j) then raise IndexError
  else match nth_error xs (Z.to_nat j) with
       | Some a => inr a
       | None => raise IndexError
       end.

(** [range(start, stop)]. *)
Definition py_range (start stop : Z) : list Z :=
  map (fun k => start + Z.of_nat k) (seq 0 (Z.to_nat (stop - start))).

(** [xs[start:stop:step]] for [0 <= start] and [0 < step]: the elements at
    [start], [start + step], ... below [min stop (len xs)]. *)
Definition py_slice {A : Type} (xs : list A) (start stop step : Z) : list A :=
  let stop' := Z.min stop (Z.of_nat (length xs)) in
  flat_map
    (fun i => if (i - start) mod step =? 0
              then match nth_error xs (Z.to_nat i) with
                   | Some a => [a]
                   | None => []
                   end
              else [])
    (py_range start stop').

(** The sum of a list of numbers. *)
Fixpoint Qsum (xs : list Q) : Q :=
  match xs with
  | [] => 0%Q
  | x :: xs' => (x + Qsum xs')%Q
  end.

(** [o], at position [i] of [opts], is the first of the candidates with the
    least score: no candidate scores less, and every earlier one scores
    more. *)
Definition first_min {A : Type} (f : A -> Q) (opts : list A) (i : nat) (o : A)
    : Prop :=
  nth_error opts i = Some o
  /\ (forall c, In c opts -> (f o <= f c)%Q)
  /\ (forall j c, (j < i)%nat -> nth_error opts j = Some c -> (f o < f c)%Q).

(** ** The game engine's interface *)

(** A grid cell [[x, y]]. *)
Definition Location : Type := (Z * Z)%type.

(** The unit kinds [on_game_start] reads from the configuration. *)
Inductive UnitType : Type :=
| WALL
| SUPPORT
| TURRET
| SCOUT
| DEMOLISHER
| INTERCEPTOR.

Definition is_stationary (u : UnitType) : bool :=
  match u with
  | WALL | SUPPORT | TURRET => true
  | SCOUT | DEMOLISHER | INTERCEPTOR => false
  end.

(** The resource kinds, as [on_game_start] sets them: [MP = 1], [SP = 0]. *)
Definition MP : Z := 1.
Definition SP : Z := 0.

(** The two edges [enemy_least_damage_target] asks for. *)
Inductive Edge : Type :=
| TOP_RIGHT
| TOP_LEFT
| BOTTOM_LEFT
| BOTTOM_RIGHT.

(** A unit on the map, as [get_attackers] hands it out. *)
Record GameUnit : Type := mkUnit {
  unit_type : UnitType;
  unit_player : Z;
  unit_loc : Location
}.

(** What the strategy uses of [gamelib.GameState]. The three requests
    change the game state (the engine's copy of the map and of the
    resources); the planner never looks at what they return. A single
    location passed to [attempt_spawn] or [attempt_upgrade] is the list of
    that one location, as [gamelib] reads it. *)
Class GameLib (GS : Type) : Type := {
  turn_number : GS -> Z;
  get_resource : GS -> Z -> Z -> Q;
  project_future_MP : GS -> Q;
  contains_stationary_unit : GS -> Location -> bool;
  find_path_to_edge : GS -> Location -> list Location;
  get_attackers : GS -> Location -> Z -> list GameUnit;
  damage_i : GS -> UnitType -> Q;
  get_edge_locations : GS -> Edge -> list Location;
  attempt_spawn : GS -> UnitType -> list Location -> Z -> GS;
  attempt_upgrade : GS -> list Location -> GS;
  attempt_remove : GS -> list Location -> GS
}.

(** Structures are paid from the structure resource: a request that
    places, upgrades or removes structures leaves the player's mobility
    resource and its forecast as they are. *)
Class KeepsMobility (GS : Type) `{GameLib GS} : Prop := {
  spawn_keeps_mp : forall gs u ls n,
    is_stationary u = true ->
    (get_resource (attempt_spawn gs u ls n) 1 0 == get_resource gs 1 0)%Q;
  spawn_keeps_future : forall gs u ls n,
    is_stationary u = true ->
    (project_future_MP (attempt_spawn gs u ls n) == project_future_MP gs)%Q;
  upgrade_keeps_mp : forall gs ls,
    (get_resource (attempt_upgrade gs ls) 1 0 == get_resource gs 1 0)%Q;
  upgrade_keeps_future : forall gs ls,
    (project_future_MP (attempt_upgrade gs ls) == project_future_MP gs)%Q;
  remove_keeps_mp : forall gs ls,
    (get_resource (attempt_remove gs ls) 1 0 == get_resource gs 1 0)%Q;
  remove_keeps_future : forall gs ls,
    (project_future_MP (attempt_remove gs ls) == project_future_MP gs)%Q
}.

(** ** The threat estimator *)

Section Estimator.
Context {GS : Type} `{GameLib GS}.

(** [compute_damage]: the loop over the path, adding for each location the
    number of attackers times [GameUnit(TURRET, config).damage_i]. *)
Definition compute_damage (game_state : GS) (start_location : Location)
    (player_index : Z) : Q :=
  let path := find_path_to_edge game_state start_location in
  fold_left
    (fun (damage : Q) (location : Location) =>
       (damage
        + inject_Z (Z.of_nat (length (get_attackers game_state location player_index)))
          * damage_i game_state TURRET)%Q)
    path 0%Q.

(** What one location of the path adds: the attackers in range times the
    turret's damage. *)
Definition shots (game_state : GS) (player_index : Z) (location : Location) : Q :=
  (inject_Z (Z.of_nat (length (get_attackers game_state location player_index)))
   * damage_i game_state TURRET)%Q.

(** [least_damage_spawn_location]. *)
Definition least_damage_spawn_location (game_state : GS)
    (location_options : list Location) : Exc Location :=
  let damages := map (fun o => compute_damage game_state o 0) location_options in
  (m <- py_min damages ;;
   idx <- py_index damages m ;;
   py_getitem location_options idx)%exc.

(** The candidates of [enemy_least_damage_target]: the locations of the
    two top edges. *)
Definition enemy_options (game_state : GS) : list Location :=
  get_edge_locations game_state TOP_LEFT
  ++ get_edge_locations game_state TOP_RIGHT.

(** [enemy_least_damage_target]. *)
Definition enemy_least_damage_target (game_state : GS) : Exc (Location * Q) :=
  let enemy_options := enemy_options game_state in
  let damages := map (fun o => compute_damage game_state o 1) enemy_options in
  (m <- py_min damages ;;
   idx <- py_index damages m ;;
   o <- py_getitem enemy_options idx ;;
   target <- py_getitem (find_path_to_edge game_state o) (-1) ;;
   d <- py_getitem damages idx ;;
   inr (target, d))%exc.

End Estimator.

(** ** Programs that mutate an object

    [Prog St A] is a piece of Python that may change an object of type [St]
    and either returns an [A] or raises. What was changed before an
    exception stays changed. *)

Definition Prog (St A : Type) : Type := St -> Exc A * St.

Definition ret {St A : Type} (a : A) : Prog St A := fun s => (inr a, s).

Definition bind {St A B : Type} (p : Prog St A) (k : A -> Prog St B)
    : Prog St B :=
  fun s =>
    match p s with
    | (inl e, s') => (inl e, s')
    | (inr a, s') => k a s'
    end.

Definition lift {St A : Type} (m : Exc A) : Prog St A := fun s => (m, s).

Definition when {St : Type} (b : bool) (p : Prog St unit) : Prog St unit :=
  if b then p else ret tt.

Declare Scope prog_scope.
Delimit Scope prog_scope with prog.
Notation "x <- p ;; k" := (bind p (fun x => k))
  (at level 61, p at next level, right associativity) : prog_scope.
Notation "p ;; k" := (bind p (fun _ => k))
  (at level 61, right associativity) : prog_scope.

(** [for x in xs: body]. *)
Fixpoint for_each {St A : Type} (xs : list A) (body : A -> Prog St unit)
    : Prog St unit :=
  match xs with
  | [] => ret tt
  | x :: xs' => (body x ;; for_each xs' body)%prog
  end.

(** ** The turn planner *)

(** One request of the turn's plan. *)
Inductive Command : Type :=
| Spawn (unit : UnitType) (locations : list Location) (num : Z)
| Upgrade (locations : list Location)
| Remove (locations : list Location).

(** The game state during a turn, with the requests made so far. *)
Record Turn (GS : Type) : Type := mkTurn {
  board : GS;
  plan : list Command
}.
Arguments mkTurn {GS} _ _.
Arguments board {GS} _.
Arguments plan {GS} _.

Definition wall_locations : list Location :=
  [(0,13); (1,13); (2,13); (2,12); (3,12); (4,11); (7,10); (8,9); (9,10);
   (10,9); (17,9); (18,10); (19,9); (20,10); (23,11); (24,12); (25,12);
   (25,13); (26,13); (27,13)].
Definition left_tunnel : list Location := [(2,13); (2,12); (3,12); (6,10)].
Definition right_tunnel : list Location := [(24,12); (25,12); (25,13); (21,10)].
Definition reinforce_location : list Location :=
  [(0,13); (27,13); (1,12); (26,12); (4,11); (23,11)].
Definition mid_location : list Location :=
  map (fun i => (i, 9)) (py_range 11 17).
Definition left_location : list Location :=
  [(1,12); (3,13); (6,10); (4,12); (5,11)].
Definition right_location : list Location :=
  [(26,12); (24,13); (21,10); (23,12); (22,11)].
Definition scout_options : list Location :=
  [(10,3); (11,2); (12,1); (13,0); (14,0); (15,1); (16,2); (17,3)].

Definition loc_eqb (a b : Location) : bool :=
  (fst a =? fst b) && (snd a =? snd b).

Fixpoint locs_eqb (xs ys : list Location) : bool :=
  match xs, ys with
  | [], [] => true
  | x :: xs', y :: ys' => loc_eqb x y && locs_eqb xs' ys'
  | _, _ => false
  end.

(** The requests the resource tests decide: filling the tunnels, any
    removal, any deployment of mobile units. The other requests of the
    plan are made whatever the resources. *)
Definition signalb (c : Command) : bool :=
  match c with
  | Spawn u ls _ =>
      negb (is_stationary u) || locs_eqb ls (left_tunnel ++ right_tunnel)
  | Upgrade _ => false
  | Remove _ => true
  end.

Definition signals (p : list Command) : list Command := filter signalb p.

Section Planner.
Context {GS : Type} `{GameLib GS}.

(** A query of the game state. *)
Definition ask {A : Type} (q : GS -> A) : Prog (Turn GS) A :=
  fun t => (inr (q (board t)), t).

Definition spawn (u : UnitType) (locations : list Location) (num : Z)
    : Prog (Turn GS) unit :=
  fun t => (inr tt, mkTurn (attempt_spawn (board t) u locations num)
                           (plan t ++ [Spawn u locations num])).

Definition upgrade (locations : list Location) : Prog (Turn GS) unit :=
  fun t => (inr tt, mkTurn (attempt_upgrade (board t) locations)
                           (plan t ++ [Upgrade locations])).

Definition remove (locations : list Location) : Prog (Turn GS) unit :=
  fun t => (inr tt, mkTurn (attempt_remove (board t) locations)
                           (plan t ++ [Remove locations])).

(** [game_state.attempt_spawn(WALL, [left_location[i], right_location[i]])]. *)
Definition spawn_pair (i : Z) : Prog (Turn GS) unit :=
  (l <- lift (py_getitem left_location i) ;;
   r <- lift (py_getitem right_location i) ;;
   spawn WALL [l; r] 1)%prog.

(** The body of [for x in reinforce_location]. *)
Definition reinforce (x : Location) : Prog (Turn GS) unit :=
  (occupied <- ask (fun gs => contains_stationary_unit gs x) ;;
   if occupied then upgrade [x] else spawn WALL [x] 1)%prog.

(** [project_future_MP() > 11 and get_resource(1,0) <= 11]: the second
    query is made only when the first comparison holds. *)
Definition release_test : Prog (Turn GS) bool :=
  (future <- ask project_future_MP ;;
   if Qlt_bool 11 future
   then (r <- ask (fun gs => get_resource gs 1 0) ;; ret (Qle_bool r 11))
   else ret false)%prog.

(** [starter_strategy], statement by statement. *)
Definition starter_strategy : Prog (Turn GS) unit :=
  (turn <- ask turn_number ;;
   when (turn =? 0) (spawn WALL wall_locations 1) ;;
   spawn TURRET [(2,11); (25,11)] 1 ;;
   upgrade [(2,11); (25,11)] ;;
   spawn TURRET [(9,9); (18,9)] 1 ;;
   r <- ask (fun gs => get_resource gs 1 0) ;;
   when (Qle_bool r 11) (spawn WALL (left_tunnel ++ right_tunnel) 1) ;;
   spawn WALL (py_slice mid_location 1 6 2) 1 ;;
   for_each (py_range 0 3) spawn_pair ;;
   upgrade [(9,9); (18,9)] ;;
   for_each reinforce_location reinforce ;;
   for_each (py_range 3 5) spawn_pair ;;
   spawn WALL (py_slice mid_location 0 6 2) 1 ;;
   release <- release_test ;;
   when release (remove left_tunnel ;; remove right_tunnel) ;;
   r' <- ask (fun gs => get_resource gs 1 0) ;;
   when (Qlt_bool 11 r')
     (start <- (fun t => (least_damage_spawn_location (board t) scout_options, t)) ;;
      spawn SCOUT [start] 100))%prog.

(** The turn's plan: the requests [starter_strategy] makes on a fresh
    game state, in order. *)
Definition turn_plan (game_state : GS) : list Command :=
  plan (snd (starter_strategy (mkTurn game_state []))).

(** The request that fills both tunnels, and the two that open them. *)
Definition fill_tunnels : Command := Spawn WALL (left_tunnel ++ right_tunnel) 1.
Definition open_left : Command := Remove left_tunnel.
Definition open_right : Command := Remove right_tunnel.

(** The plan deploys scouts. *)
Definition deploys_scouts (p : list Command) : Prop :=
  exists start, In (Spawn SCOUT [start] 100) p.

(** What the three resource tests of [starter_strategy] add to the plan,
    from the mobility resource [mp], its forecast [future] and the start
    location of the scouts. *)
Definition gate_signals (mp future : Q) (start : Location) : list Command :=
  (if Qle_bool mp 11 then [fill_tunnels] else [])
  ++ (if Qlt_bool 11 future && Qle_bool mp 11 then [open_left; open_right] else [])
  ++ (if Qlt_bool 11 mp then [Spawn SCOUT [start] 100] else []).

(** [p] returns, leaves the mobility resource and its forecast as they
    are, and adds to the plan the signals [l] and otherwise only requests
    that are no signals. *)
Definition Emits {A : Type} (p : Prog (Turn GS) A) (l : list Command) : Prop :=
  forall t, exists a t',
    p t = (inr a, t')
    /\ (get_resource (board t') 1 0 == get_resource (board t) 1 0)%Q
    /\ (project_future_MP (board t') == project_future_MP (board t))%Q
    /\ signals (plan t') = signals (plan t) ++ l.

End Planner.

(** ** The breach tracker *)

(** What [json.loads] returns: [None], [bool], [int], [float], [str],
    [list] and [dict]. A [dict] is the list of its items in insertion
    order; the keys of a decoded object are strings and distinct. *)
Inductive json : Type :=
| JNull
| JBool (b : bool)
| JInt (n : Z)
| JFloat (f : spec_float)
| JStr (s : string)
| JList (l : list json)
| JDict (d : list (string * json)).

(** A float equals the integer [n]: Python compares the exact values. *)
Definition float_is_int (f : spec_float) (n : Z) : bool :=
  match f with
  | S754_zero _ => n =? 0
  | S754_finite s m e =>
      let v := if s then Z.neg m else Z.pos m in
      if 0 <=? e then v * 2 ^ e =? n else v =? n * 2 ^ (- e)
  | S754_infinity _ | S754_nan => false
  end.

(** [v == n] for a decoded value and an integer literal: numbers compare by
    value ([True] is 1 and [False] is 0), anything else differs. *)
Definition py_eq_int (v : json) (n : Z) : bool :=
  match v with
  | JInt k => k =? n
  | JBool b => (if b then 1 else 0) =? n
  | JFloat f => float_is_int f n
  | JNull | JStr _ | JList _ | JDict _ => false
  end.

Fixpoint chars (s : string) : list json :=
  match s with
  | EmptyString => []
  | String c s' => JStr (String c EmptyString) :: chars s'
  end.

Fixpoint lookup (k : string) (d : list (string * json)) : Exc json :=
  match d with
  | [] => raise KeyError
  | (k', v) :: d' => if String.eqb k k' then inr v else lookup k d'
  end.

(** [v[k]] with a string key. *)
Definition py_getitem_str (v : json) (k : string) : Exc json :=
  match v with
  | JDict d => lookup k d
  | JNull | JBool _ | JInt _ | JFloat _ | JStr _ | JList _ => raise TypeError
  end.

(** [v[i]] with an integer index. No key of a decoded object is an
    integer. *)
Definition py_subscript (v : json) (i : Z) : Exc json :=
  match v with
  | JList l => py_getitem l i
  | JStr s => py_getitem (chars s) i
  | JDict _ => raise KeyError
  | JNull | JBool _ | JInt _ | JFloat _ => raise TypeError
  end.

(** What [for x in v] runs over: the elements of a list, the characters of
    a string, the keys of a dict. *)
Definition py_iter (v : json) : Exc (list json) :=
  match v with
  | JList l => inr l
  | JStr s => inr (chars s)
  | JDict d => inr (map (fun kv => JStr (fst kv)) d)
  | JNull | JBool _ | JInt _ | JFloat _ => raise TypeError
  end.

(** [self.scored_on_locations]. *)
Definition History : Type := list json.

(** [self.scored_on_locations.append(location)]. *)
Definition append (location : json) : Prog History unit :=
  fun h => (inr tt, h ++ [location]).

(** [unit_owner_self = True if breach[4] == 1 else False]. *)
Definition unit_owner_self (owner : json) : bool :=
  if py_eq_int owner 1 then true else false.

(** The body of [for breach in breaches]. *)
Definition record_breach (breach : json) : Prog History unit :=
  (location <- lift (py_subscript breach 0) ;;
   owner <- lift (py_subscript breach 4) ;;
   if negb (unit_owner_self owner) then append location else ret tt)%prog.

(** [on_action_frame], from the decoded frame on ([state] is what
    [json.loads(turn_string)] returned); the calls of [debug_write] only
    print. *)
Definition on_action_frame (state : json) : Prog History unit :=
  (events <- lift (py_getitem_str state "events") ;;
   breaches <- lift (py_getitem_str events "breach") ;;
   items <- lift (py_iter breaches) ;;
   for_each items record_breach)%prog.

(** The history after the frames [states], one call each, from [h];
    [on_game_start] sets [h] to the empty list. A call that raises keeps
    what it appended. *)
Definition after_frames (states : list json) (h : History) : History :=
  fold_left (fun h state => snd (on_action_frame state h)) states h.

(** A breach event of the frame format:
    [[location, damage, unit_type, unit_id, owner]]. *)
Record Breach : Type := mkBreach {
  breach_location : json;
  breach_damage : json;
  breach_unit_type : json;
  breach_unit_id : json;
  breach_owner : json
}.

Definition breach_json (b : Breach) : json :=
  JList [breach_location b; breach_damage b; breach_unit_type b;
         breach_unit_id b; breach_owner b].

(** A frame whose breach events are [bs]. *)
Definition carries (state : json) (bs : list Breach) : Prop :=
  exists events,
    py_getitem_str state "events" = inr events
    /\ py_getitem_str events "breach" = inr (JList (map breach_json bs)).

(** The owner codes of a frame: 1 is the player itself, 2 the opponent. *)
Definition owner_is_opponent (b : Breach) : bool :=
  match breach_owner b with
  | JInt 2 => true
  | _ => false
  end.

Definition owner_documented (b : Breach) : Prop :=
  breach_owner b = JInt 1 \/ breach_owner b = JInt 2.

(** [[x, y]] as a decoded value. *)
Definition loc_json (l : Location) : json := JList [JInt (fst l); JInt (snd l)].

(** The events whose location is recorded: those whose owner is not the
    player itself. *)
Definition scored_on (bs : list Breach) : list json :=
  map breach_location
    (filter (fun b => negb (unit_owner_self (breach_owner b))) bs).

(** The smallest frame with the breach events [bs]. *)
Definition frame_of (bs : list Breach) : json :=
  JDict [("events"%string, JDict [("breach"%string, JList (map breach_json bs))])].

(** A breach at [l] by unit 1 of kind 3 with damage 1, owned by [owner]. *)
Definition breach_at (l : Location) (owner : Z) : Breach :=
  mkBreach (loc_json l) (JInt 1) (JInt 3) (JStr "1") (JInt owner).

(** ** A game engine to run the strategy on *)

(** Modelled from the spec: the game-engine collaborator ([gamelib.GameState]),
    which is not among the sources. It answers the queries of the
    interface from the tables of a board, and serves a request as far as
    the resources allow: a structure is placed on a free cell and paid from
    the structure resource, an upgrade is paid from the structure resource,
    mobile units are paid from the mobility resource one by one, a removal
    takes effect when the turn is resolved; a request that cannot be served
    does nothing. *)
Record Arena : Type := mkArena {
  a_turn : Z;
  a_sp : Q;
  a_mp : Q;
  a_enemy_sp : Q;
  a_enemy_mp : Q;
  a_future_mp : Q;
  a_cost : UnitType -> Q;
  a_damage : UnitType -> Q;
  a_structures : list Location;
  a_upgraded : list Location;
  a_paths : Location -> list Location;
  a_in_range : Location -> Z -> list GameUnit;
  a_edges : Edge -> list Location
}.

Definition occupied (a : Arena) (l : Location) : bool :=
  existsb (loc_eqb l) (a_structures a).

(** [get_resource(kind, player_index)]: kind 0 is the structure resource,
    kind 1 the mobility resource; player 0 is the player itself. *)
Definition arena_resource (a : Arena) (kind player : Z) : Q :=
  if player =? 0
  then (if kind =? 0 then a_sp a else a_mp a)
  else (if kind =? 0 then a_enemy_sp a else a_enemy_mp a).

Definition place (u : UnitType) (a : Arena) (l : Location) : Arena :=
  if occupied a l || Qlt_bool (a_sp a) (a_cost a u) then a
  else mkArena (a_turn a) (a_sp a - a_cost a u) (a_mp a) (a_enemy_sp a)
         (a_enemy_mp a) (a_future_mp a) (a_cost a) (a_damage a)
         (l :: a_structures a) (a_upgraded a) (a_paths a) (a_in_range a)
         (a_edges a).

Definition deploy (u : UnitType) (a : Arena) : Arena :=
  if Qlt_bool (a_mp a) (a_cost a u) then a
  else mkArena (a_turn a) (a_sp a) (a_mp a - a_cost a u) (a_enemy_sp a)
         (a_enemy_mp a) (a_future_mp a) (a_cost a) (a_damage a)
         (a_structures a) (a_upgraded a) (a_paths a) (a_in_range a)
         (a_edges a).

Definition improve (a : Arena) (l : Location) : Arena :=
  if negb (occupied a l) || existsb (loc_eqb l) (a_upgraded a)
     || Qlt_bool (a_sp a) (a_cost a SUPPORT)
  then a
  else mkArena (a_turn a) (a_sp a - a_cost a SUPPORT) (a_mp a) (a_enemy_sp a)
         (a_enemy_mp a) (a_future_mp a) (a_cost a) (a_damage a)
         (a_structures a) (l :: a_upgraded a) (a_paths a) (a_in_range a)
         (a_edges a).

Definition arena_spawn (a : Arena) (u : UnitType) (ls : list Location)
    (num : Z) : Arena :=
  if is_stationary u then fold_left (place u) ls a
  else fold_left
         (fun a' _ => fold_left (fun a'' _ => deploy u a'') (py_range 0 num) a')
         ls a.

#[export] Instance arena_gamelib : GameLib Arena := {
  turn_number := a_turn;
  get_resource := arena_resource;
  project_future_MP := a_future_mp;
  contains_stationary_unit := occupied;
  find_path_to_edge := a_paths;
  get_attackers := a_in_range;
  damage_i := a_damage;
  get_edge_locations := a_edges;
  attempt_spawn := arena_spawn;
  attempt_upgrade := fun a ls => fold_left improve ls a;
  attempt_remove := fun a _ => a
}.

(** The path table of a list of (start, path) pairs; no path elsewhere. *)
Fixpoint path_table (t : list (Location * list Location)) (l : Location)
    : list Location :=
  match t with
  | [] => []
  | (s, p) :: t' => if loc_eqb l s then p else path_table t' l
  end.

(** One turret of [owner] at [at_] with the cells [cells] in range: it
    attacks the units of the other player there. *)
Definition turret_near (cells : list Location) (at_ : Location) (owner : Z)
    (l : Location) (player_index : Z) : list GameUnit :=
  if (player_index =? 1 - owner) && existsb (loc_eqb l) cells
  then [mkUnit TURRET owner at_]
  else [].

Definition unit_cost (u : UnitType) : Q :=
  match u with
  | WALL => 1
  | SUPPORT => 4
  | TURRET => 2
  | SCOUT => 1
  | DEMOLISHER => 3
  | INTERCEPTOR => 1
  end.

Definition unit_damage (u : UnitType) : Q :=
  match u with
  | TURRET => 5
  | SCOUT => 2
  | DEMOLISHER => 8
  | INTERCEPTOR => 20
  | WALL | SUPPORT => 0
  end.

(** An empty board on turn [turn] with the given resources of the player. *)
Definition quiet_arena (turn : Z) (sp mp future : Q) : Arena :=
  mkArena turn sp mp 40 5 future unit_cost unit_damage [] []
    (path_table []) (fun _ _ => []) (fun _ => []).

(** Turn 2 on an empty board with 12 structure points and 5 mobility
    points, 9 mobility points forecast. *)
Definition saving_arena : Arena := quiet_arena 2 12 5 9.

(** Turn 2 on an empty board with 11 structure points and 12 mobility
    points, 15 mobility points forecast. *)
Definition pushing_arena : Arena := quiet_arena 2 11 12 15.

(** Turn 2 on an empty board with 5 structure points and 11 mobility
    points, 15 mobility points forecast. *)
Definition waiting_arena : Arena := quiet_arena 2 5 11 15.

(** A board for the estimator: the opponent's units may enter at the two
    top edges; the one entering at (13,27) walks down to (13,0), the one
    entering at (14,27) walks to (14,0) past a turret of the player at
    (14,2); the player's scout from (13,0) walks to (13,27) unseen, the one
    from (14,0) passes an enemy turret at two cells; nothing leaves from
    (0,14). *)
Definition duel_arena : Arena :=
  mkArena 3 8 12 40 5 15 unit_cost unit_damage [(14,2)] []
    (path_table
       [((13,27), [(13,27); (13,14); (13,0)]);
        ((14,27), [(14,27); (14,14); (14,3); (14,0)]);
        ((13,0), [(13,0); (13,14); (13,27)]);
        ((14,0), [(14,0); (14,13); (14,14); (14,27)])])
    (fun l p =>
       turret_near [(14,3); (14,0)] (14,2) 0 l p
       ++ turret_near [(14,13); (14,14)] (14,15) 1 l p)
    (fun e => match e with
              | TOP_LEFT => [(13,27)]
              | TOP_RIGHT => [(14,27)]
              | BOTTOM_LEFT => [(13,0)]
              | BOTTOM_RIGHT => [(14,0)]
              end).

(** The same board when the opponent's unit entering at (13,27) is walled
    in: it has no path. *)
Definition sealed_arena : Arena :=
  mkArena 3 8 12 40 5 15 unit_cost unit_damage [(14,2)] []
    (path_table [((14,27), [(14,27); (14,14); (14,3); (14,0)])])
    (fun l p => turret_near [(14,3); (14,0)] (14,2) 0 l p)
    (fun e => match e with
              | TOP_LEFT => [(13,27)]
              | TOP_RIGHT => [(14,27)]
              | BOTTOM_LEFT => [(13,0)]
              | BOTTOM_RIGHT => [(14,0)]
              end).

(** ** The whole turn *)

(** The requests of a plan of any turn, part by part. The parts between
    the tests are the same every turn. *)
Definition opening_requests (first_turn : bool) : list Command :=
  (if first_turn then [Spawn WALL wall_locations 1] else [])
  ++ [Spawn TURRET [(2,11); (25,11)] 1;
      Upgrade [(2,11); (25,11)];
      Spawn TURRET [(9,9); (18,9)] 1].

Definition middle_requests : list Command :=
  [Spawn WALL [(12,9); (14,9); (16,9)] 1;
   Spawn WALL [(1,12); (26,12)] 1;
   Spawn WALL [(3,13); (24,13)] 1;
   Spawn WALL [(6,10); (21,10)] 1;
   Upgrade [(9,9); (18,9)]].

Definition closing_requests : list Command :=
  [Spawn WALL [(4,12); (23,12)] 1;
   Spawn WALL [(5,11); (22,11)] 1;
   Spawn WALL [(11,9); (13,9); (15,9)] 1].

(** One request per location: an upgrade where the flag says that the
    location held a structure, a wall elsewhere. *)
Fixpoint reinforce_requests (xs : list Location) (held : list bool)
    : list Command :=
  match xs, held with
  | x :: xs', b :: held' =>
      (if b then Upgrade [x] else Spawn WALL [x] 1)
      :: reinforce_requests xs' held'
  | _, _ => []
  end.

(** The structure requests of a plan, by the outcome of the tests. *)
Definition structure_requests (first_turn fill : bool) (held : list bool)
    (release : bool) : list Command :=
  opening_requests first_turn
  ++ (if fill then [fill_tunnels] else [])
  ++ middle_requests
  ++ reinforce_requests reinforce_location held
  ++ closing_requests
  ++ (if release then [open_left; open_right] else []).

(** The scouts of a plan. *)
Definition push_requests (push : option Location) : list Command :=
  match push with
  | Some start => [Spawn SCOUT [start] 100]
  | None => []
  end.

(** What the plan may hold: walls and turrets one per location, scouts
    by the hundred at one of the eight start locations, upgrades, and
    removals of one of the two tunnels. *)
Definition expected_request (c : Command) : Prop :=
  match c with
  | Spawn u ls n =>
      ((u = WALL \/ u = TURRET) /\ n = 1)
      \/ (u = SCOUT /\ n = 100 /\ exists s, In s scout_options /\ ls = [s])
  | Upgrade _ => True
  | Remove ls => ls = left_tunnel \/ ls = right_tunnel
  end.

Section Session.
Context {GS : Type} `{GameLib GS}.

(** The game engine serving one request, and a list of them in order. *)
Definition issue (gs : GS) (c : Command) : GS :=
  match c with
  | Spawn u ls n => attempt_spawn gs u ls n
  | Upgrade ls => attempt_upgrade gs ls
  | Remove ls => attempt_remove gs ls
  end.

Definition issue_all (gs : GS) (l : list Command) : GS := fold_left issue l gs.

(** From [t] the program [p] returns [a], having made the requests [l], in
    order, and nothing else to the game state. *)
Definition Requests {A : Type} (p : Prog (Turn GS) A) (t : Turn GS) (a : A)
    (l : list Command) : Prop :=
  p t = (inr a, mkTurn (issue_all (board t) l) (plan t ++ l)).

(** A program on the first component of the state. *)
Definition on_fst {St T A : Type} (p : Prog St A) : Prog (St * T) A :=
  fun s => (fst (p (fst s)), (snd (p (fst s)), snd s)).

(** Modelled from the spec: [game_state.submit_turn()] of the game-engine
    library, which flushes the turn plan to the engine. What is flushed is
    the plan as it stands when the call is made; the state keeps the
    submissions made so far, in order. *)
Definition submit_turn : Prog (Turn GS * list (list Command)) unit :=
  fun s => (inr tt, (fst s, snd s ++ [plan (fst s)])).

(** [on_turn], from the game state that [gamelib.GameState(self.config,
    turn_state)] builds: the strategy on a fresh plan, then [submit_turn].
    The state is the turn and the submissions. *)
Definition on_turn (game_state : GS)
    : Exc unit * (Turn GS * list (list Command)) :=
  (on_fst starter_strategy ;; submit_turn)%prog (mkTurn game_state [], []).

End Session.

(** The plan asks for a wall at the cell [x]: one of its wall placements
    names [x]. *)
Definition wall_requested_at (x : Location) (p : list Command) : Prop :=
  exists ls n, In (Spawn WALL ls n) p /\ In x ls.

(** The six tunnel cells that no fixed request names, and the two that the
    third pair of side walls names. *)
Definition tunnel_walls : list Location :=
  [(2,13); (2,12); (3,12); (24,12); (25,12); (25,13)].
Definition tunnel_mouths : list Location := [(6,10); (21,10)].

(** The number a float stands for: its mantissa times two to its
    exponent; infinities and NaN stand for none. *)
Definition float_value (f : spec_float) : option Q :=
  match f with
  | S754_zero _ => Some 0%Q
  | S754_finite s m e =>
      Some (inject_Z (if s then Z.neg m else Z.pos m)
            * (if 0 <=? e then inject_Z (2 ^ e) else / inject_Z (2 ^ (- e))))%Q
  | S754_infinity _ | S754_nan => None
  end.

(** The decoded values that Python takes for equal to 1: the integer 1,
    the boolean [true] and a float that stands for 1. *)
Definition equals_one (v : json) : Prop :=
  match v with
  | JInt n => n = 1
  | JBool b => b = true
  | JFloat f => exists q, float_value f = Some q /\ (q == 1)%Q
  | JNull | JStr _ | JList _ | JDict _ => False
  end.

(** The binary64 float 1.0: mantissa 2^52, exponent -52. *)
Definition float_one : spec_float := S754_finite false 4503599627370496 (-52).

(** A breach at [l] whose owner field is [owner], whatever it is. *)
Definition breach_owned (l : Location) (owner : json) : Breach :=
  mkBreach (loc_json l) (JInt 1) (JInt 3) (JStr "1") owner.

(** ** The start of a game *)

(** The attributes of the strategy object and the globals of the module
    that [on_game_start] sets; [None] is a name not bound yet. *)
Record Algo : Type := mkAlgo {
  algo_config : option json;
  algo_shorthand : UnitType -> option json;
  algo_MP : option Z;
  algo_SP : option Z;
  algo_scored_on_locations : option History
}.

Definition unit_eqb (u v : UnitType) : bool :=
  match u, v with
  | WALL, WALL | SUPPORT, SUPPORT | TURRET, TURRET
  | SCOUT, SCOUT | DEMOLISHER, DEMOLISHER | INTERCEPTOR, INTERCEPTOR => true
  | _, _ => false
  end.

(** [config["unitInformation"][i]["shorthand"]]. *)
Definition unit_shorthand (config : json) (i : Z) : Exc json :=
  (info <- py_getitem_str config "unitInformation" ;;
   entry <- py_subscript info i ;;
   py_getitem_str entry "shorthand")%exc.

(** [self.config = config]. *)
Definition set_config (config : json) : Prog Algo unit :=
  fun s => (inr tt, mkAlgo (Some config) (algo_shorthand s) (algo_MP s)
                      (algo_SP s) (algo_scored_on_locations s)).

(** The state after the global of the unit [u] is bound to [v]. *)
Definition with_shorthand (u : UnitType) (v : json) (s : Algo) : Algo :=
  mkAlgo (algo_config s)
    (fun u' => if unit_eqb u u' then Some v else algo_shorthand s u')
    (algo_MP s) (algo_SP s) (algo_scored_on_locations s).

(** [U = config["unitInformation"][i]["shorthand"]] for the global [U]. *)
Definition assign_unit (u : UnitType) (config : json) (i : Z) : Prog Algo unit :=
  (v <- lift (unit_shorthand config i) ;;
   fun s => (inr tt, with_shorthand u v s))%prog.

Definition set_MP (n : Z) : Prog Algo unit :=
  fun s => (inr tt, mkAlgo (algo_config s) (algo_shorthand s) (Some n)
                      (algo_SP s) (algo_scored_on_locations s)).

Definition set_SP (n : Z) : Prog Algo unit :=
  fun s => (inr tt, mkAlgo (algo_config s) (algo_shorthand s) (algo_MP s)
                      (Some n) (algo_scored_on_locations s)).

Definition set_scored_on_locations (h : History) : Prog Algo unit :=
  fun s => (inr tt, mkAlgo (algo_config s) (algo_shorthand s) (algo_MP s)
                      (algo_SP s) (Some h)).

(** [on_game_start], statement by statement; the call of [debug_write]
    only prints. *)
Definition on_game_start (config : json) : Prog Algo unit :=
  (set_config config ;;
   assign_unit WALL config 0 ;;
   assign_unit SUPPORT config 1 ;;
   assign_unit TURRET config 2 ;;
   assign_unit SCOUT config 3 ;;
   assign_unit DEMOLISHER config 4 ;;
   assign_unit INTERCEPTOR config 5 ;;
   set_MP 1 ;;
   set_SP 0 ;;
   set_scored_on_locations [])%prog.

(** The position of a unit's entry in [config["unitInformation"]]. *)
Definition unit_index (u : UnitType) : Z :=
  match u with
  | WALL => 0
  | SUPPORT => 1
  | TURRET => 2
  | SCOUT => 3
  | DEMOLISHER => 4
  | INTERCEPTOR => 5
  end.

(** A unit entry of the configuration with the shorthand [name]. *)
Definition unit_entry (name : string) : json :=
  JDict [("shorthand"%string, JStr name); ("cost1"%string, JInt 1)].

(** A configuration with the unit entries of the names [names]. *)
Definition config_of (names : list string) : json :=
  JDict [("debug"%string, JNull);
         ("unitInformation"%string, JList (map unit_entry names))].

(** ** More on frames *)

(** A frame whose breach list is [items], whatever they are. *)
Definition carries_items (state : json) (items : list json) : Prop :=
  exists events,
    py_getitem_str state "events" = inr events
    /\ py_getitem_str events "breach" = inr (JList items).

(** * Properties *)

(** ** Python primitives *)

Lemma Qlt_bool_iff (a b : Q) : Qlt_bool a b = true <-> (a < b)%Q.
Proof.
  unfold Qlt_bool. rewrite negb_true_iff. split.
  - intros Hf. apply Qnot_le_lt. intros Hle.
    apply Qle_bool_iff in Hle. congruence.
  - intros Hlt. destruct (Qle_bool b a) eqn:E; [ | reflexivity ].
    apply Qle_bool_iff in E. apply Qlt_not_le in Hlt. contradiction.
Qed.

Lemma Qlt_bool_false (a b : Q) : Qlt_bool a b = false <-> (b <= a)%Q.
Proof.
  unfold Qlt_bool. rewrite negb_false_iff. apply Qle_bool_iff.
Qed.

Lemma min_from_spec (xs : list Q) : forall m,
  (min_from m xs <= m)%Q
  /\ (forall x, In x xs -> (min_from m xs <= x)%Q)
  /\ (min_from m xs = m \/ In (min_from m xs) xs).
Proof.
  induction xs as [ | x xs IH ]; intros m; simpl.
  - split; [ apply Qle_refl | split; [ intros ? [] | now left ] ].
  - destruct (IH (if Qlt_bool x m then x else m)) as (Hm & Hall & Hin).
    destruct (Qlt_bool x m) eqn:E.
    + apply Qlt_bool_iff in E.
      split; [ lra | split ].
      * intros y [ <- | Hy ]; [ exact Hm | now apply Hall ].
      * destruct Hin as [ -> | Hin ]; right; [ now left | now right ].
    + apply Qlt_bool_false in E.
      split; [ exact Hm | split ].
      * intros y [ <- | Hy ]; [ lra | now apply Hall ].
      * destruct Hin as [ -> | Hin ]; [ now left | right; now right ].
Qed.

(** [min] of a non-empty list is one of its elements and a lower bound. *)
Lemma py_min_spec (xs : list Q) :
  xs <> [] ->
  exists m, py_min xs = inr m /\ In m xs /\ forall x, In x xs -> (m <= x)%Q.
Proof.
  destruct xs as [ | x xs ]; [ congruence | intros _ ].
  destruct (min_from_spec xs x) as (Hm & Hall & Hin).
  exists (min_from x xs). split; [ reflexivity | split ].
  - destruct Hin as [ -> | Hin ]; [ now left | now right ].
  - intros y [ <- | Hy ]; [ exact Hm | now apply Hall ].
Qed.

(** [index] finds the first element equal to the value, when there is one. *)
Lemma py_index_first (xs : list Q) (v : Q) :
  (exists x, In x xs /\ (x == v)%Q) ->
  exists i x,
    py_index xs v = inr (Z.of_nat i)
    /\ nth_error xs i = Some x /\ (x == v)%Q
    /\ forall j y, (j < i)%nat -> nth_error xs j = Some y -> ~ (y == v)%Q.
Proof.
  induction xs as [ | a xs IH ]; intros (x & Hin & Hx).
  - destruct Hin.
  - simpl. destruct (Qeq_bool a v) eqn:E.
    + apply Qeq_bool_iff in E.
      exists 0%nat, a. repeat split; auto. intros j y Hj. lia.
    + assert (Ha : ~ (a == v)%Q) by now apply Qeq_bool_neq.
      destruct Hin as [ -> | Hin ]; [ contradiction | ].
      destruct IH as (i & b & Hi & Hb & Hbv & Hfirst); [ now exists x | ].
      exists (S i), b. rewrite Hi. simpl.
      repeat split; auto.
      * f_equal. lia.
      * intros [ | j ] y Hj Hy; simpl in Hy.
        -- now inversion Hy; subst.
        -- apply (Hfirst j); [ lia | exact Hy ].
Qed.

Lemma py_getitem_nat {A : Type} (xs : list A) (i : nat) (a : A) :
  nth_error xs i = Some a -> py_getitem xs (Z.of_nat i) = inr a.
Proof.
  intros Hi. unfold py_getitem.
  assert (Hlen : (i < length xs)%nat)
    by (apply nth_error_Some; congruence).
  destruct (Z.of_nat i <? 0) eqn:E0; [ apply Z.ltb_lt in E0; lia | ].
  destruct (Z.of_nat i <? 0) eqn:E1; [ congruence | ].
  destruct (Z.of_nat (length xs) <=? Z.of_nat i) eqn:E2;
    [ apply Z.leb_le in E2; lia | ].
  simpl. now rewrite Nat2Z.id, Hi.
Qed.

Lemma nth_error_last {A : Type} (xs : list A) (d : A) :
  xs <> [] -> nth_error xs (length xs - 1) = Some (last xs d).
Proof.
  induction xs as [ | a xs IH ]; [ congruence | intros _ ].
  destruct xs as [ | b xs ]; [ reflexivity | ].
  specialize (IH ltac:(congruence)).
  replace (length (a :: b :: xs) - 1)%nat with (S (length (b :: xs) - 1))
    by (simpl length; lia).
  exact IH.
Qed.

(** [xs[-1]] is the last element, and raises on the empty list. *)
Lemma py_getitem_last {A : Type} (xs : list A) (d : A) :
  py_getitem xs (-1) =
  match xs with
  | [] => raise IndexError
  | _ :: _ => inr (last xs d)
  end.
Proof.
  destruct xs as [ | a xs ]; [ reflexivity | ].
  unfold py_getitem.
  set (n := Z.of_nat (length (a :: xs))).
  assert (Hn : 1 <= n) by (subst n; simpl length; lia).
  change (-1 <? 0) with true. cbv iota.
  destruct (-1 + n <? 0) eqn:E1; [ apply Z.ltb_lt in E1; lia | ].
  destruct (n <=? -1 + n) eqn:E2; [ apply Z.leb_le in E2; lia | ].
  simpl orb. cbv iota.
  replace (Z.to_nat (-1 + n)) with (length (a :: xs) - 1)%nat by (subst n; lia).
  rewrite (nth_error_last (a :: xs) d) by congruence. reflexivity.
Qed.

Lemma py_range_bounds (start stop bound i : Z) :
  (0 <=? start) && (stop <=? bound) = true ->
  In i (py_range start stop) -> 0 <= i < bound.
Proof.
  intros Hb Hi. apply andb_true_iff in Hb. destruct Hb as (H0 & H1).
  apply Z.leb_le in H0. apply Z.leb_le in H1.
  unfold py_range in Hi. apply in_map_iff in Hi.
  destruct Hi as (k & <- & Hk). apply in_seq in Hk. lia.
Qed.

(** The candidate picked by [options[damages.index(min(damages))]]. *)
Lemma select_first_min {A : Type} (f : A -> Q) (opts : list A) :
  opts <> [] ->
  exists i o m,
    py_min (map f opts) = inr m
    /\ py_index (map f opts) m = inr (Z.of_nat i)
    /\ first_min f opts i o
    /\ (f o == m)%Q.
Proof.
  intros Hne.
  destruct (py_min_spec (map f opts)) as (m & Hmin & Hin & Hlow).
  { destruct opts; [ congruence | discriminate ]. }
  destruct (py_index_first (map f opts) m) as (i & x & Hi & Hx & Hxm & Hfirst).
  { exists m. split; [ exact Hin | reflexivity ]. }
  rewrite nth_error_map in Hx.
  destruct (nth_error opts i) as [ o | ] eqn:Ho; [ | discriminate ].
  simpl in Hx. injection Hx as Hx. subst x.
  assert (Hlow' : forall c, In c opts -> (m <= f c)%Q)
    by (intros c Hc; apply Hlow, in_map, Hc).
  exists i, o, m. repeat split; auto.
  - intros c Hc. rewrite Hxm. now apply Hlow'.
  - intros j c Hj Hc. rewrite Hxm.
    assert (Hcm : (m <= f c)%Q) by (apply Hlow'; eapply nth_error_In; eauto).
    assert (Hne' : ~ (f c == m)%Q).
    { apply (Hfirst j); [ exact Hj | ]. now rewrite nth_error_map, Hc. }
    apply Qle_lteq in Hcm. destruct Hcm as [ Hlt | Heq ]; [ exact Hlt | ].
    exfalso. apply Hne'. now symmetry.
Qed.

Lemma first_min_unique {A : Type} (f : A -> Q) (opts : list A)
    (i j : nat) (o o' : A) :
  first_min f opts i o -> first_min f opts j o' -> i = j /\ o = o'.
Proof.
  intros (Hi & Hlow & Hfirst) (Hj & Hlow' & Hfirst').
  assert (Hio : In o opts) by (eapply nth_error_In; eauto).
  assert (Hjo : In o' opts) by (eapply nth_error_In; eauto).
  destruct (Nat.lt_trichotomy i j) as [ Hlt | [ Heq | Hgt ] ].
  - specialize (Hfirst' i o Hlt Hi). specialize (Hlow o' Hjo). lra.
  - subst j. split; [ reflexivity | congruence ].
  - specialize (Hfirst j o' Hgt Hj). specialize (Hlow' o Hio). lra.
Qed.

(** ** The threat estimator *)

Section EstimatorFacts.
Context {GS : Type} `{GameLib GS}.

Lemma fold_left_Qsum {A : Type} (g : A -> Q) (l : list A) : forall acc,
  (fold_left (fun d x => d + g x) l acc == acc + Qsum (map g l))%Q.
Proof.
  induction l as [ | a l IH ]; intros acc; simpl.
  - lra.
  - rewrite IH. lra.
Qed.

Lemma compute_damage_sum (gs : GS) (start : Location) (p : Z) :
  (compute_damage gs start p
   == Qsum (map (shots gs p) (find_path_to_edge gs start)))%Q.
Proof.
  unfold compute_damage.
  etransitivity; [ exact (fold_left_Qsum (shots gs p) _ 0%Q) | ].
  apply Qplus_0_l.
Qed.

Lemma shots_nonneg (gs : GS) (p : Z) (l : Location) :
  (0 <= damage_i gs TURRET)%Q -> (0 <= shots gs p l)%Q.
Proof.
  intros Hd. unfold shots. apply Qmult_le_0_compat; [ | exact Hd ].
  unfold Qle. simpl. lia.
Qed.

Lemma Qsum_nonneg (xs : list Q) :
  (forall x, In x xs -> (0 <= x)%Q) -> (0 <= Qsum xs)%Q.
Proof.
  induction xs as [ | x xs IH ]; intros Hall; simpl.
  - lra.
  - assert (0 <= x)%Q by (apply Hall; now left).
    assert (0 <= Qsum xs)%Q by (apply IH; intros y Hy; apply Hall; now right).
    lra.
Qed.

Lemma Qsum_zero (xs : list Q) :
  (forall x, In x xs -> (x == 0)%Q) -> (Qsum xs == 0)%Q.
Proof.
  induction xs as [ | x xs IH ]; intros Hall; simpl.
  - lra.
  - rewrite (Hall x) by now left.
    rewrite IH by (intros y Hy; apply Hall; now right). lra.
Qed.

(** On a non-empty list [least_damage_spawn_location] returns the first of
    the candidates with the least damage. *)
Lemma least_damage_picks (gs : GS) (opts : list Location) :
  opts <> [] ->
  exists i loc,
    least_damage_spawn_location gs opts = inr loc
    /\ first_min (fun o => compute_damage gs o 0) opts i loc.
Proof.
  intros Hne.
  destruct (select_first_min (fun o => compute_damage gs o 0) opts Hne)
    as (i & o & m & Hmin & Hidx & Hfm & _).
  exists i, o. split; [ | exact Hfm ].
  unfold least_damage_spawn_location. rewrite Hmin. simpl.
  rewrite Hidx. simpl. apply py_getitem_nat. apply Hfm.
Qed.

(** What [enemy_least_damage_target] returns, by the path of the first
    candidate with the least damage. *)
Lemma enemy_target_picks (gs : GS) :
  enemy_options gs <> [] ->
  exists i o,
    first_min (fun o => compute_damage gs o 1) (enemy_options gs) i o
    /\ enemy_least_damage_target gs =
       match find_path_to_edge gs o with
       | [] => raise IndexError
       | _ :: _ => inr (last (find_path_to_edge gs o) o, compute_damage gs o 1)
       end.
Proof.
  intros Hne.
  destruct (select_first_min (fun o => compute_damage gs o 1) _ Hne)
    as (i & o & m & Hmin & Hidx & Hfm & _).
  exists i, o. split; [ exact Hfm | ].
  unfold enemy_least_damage_target. rewrite Hmin. simpl.
  rewrite Hidx. simpl.
  rewrite (py_getitem_nat (enemy_options gs) i o) by apply Hfm. simpl.
  rewrite (py_getitem_last (find_path_to_edge gs o) o).
  destruct (find_path_to_edge gs o) as [ | a path ]; [ reflexivity | ].
  simpl exc_bind.
  rewrite (py_getitem_nat _ i (compute_damage gs o 1)).
  - reflexivity.
  - rewrite nth_error_map. destruct Hfm as (-> & _). reflexivity.
Qed.

(** C2. For every non-empty candidate list, [least_damage_spawn_location]
    returns a location [loc] of the list whose damage estimate is at most
    that of every candidate; [loc] stands at a position [i] such that every
    candidate before [i] has a strictly larger estimate, so among the
    candidates with the least estimate it is the first. *)
Theorem least_damage_spawn_location_first_min (gs : GS) (opts : list Location) :
  opts <> [] ->
  exists i loc,
    least_damage_spawn_location gs opts = inr loc
    /\ nth_error opts i = Some loc
    /\ In loc opts
    /\ (forall c, In c opts ->
          (compute_damage gs loc 0 <= compute_damage gs c 0)%Q)
    /\ (forall j c, (j < i)%nat -> nth_error opts j = Some c ->
          (compute_damage gs loc 0 < compute_damage gs c 0)%Q).
Proof.
  intros Hne.
  destruct (least_damage_picks gs opts Hne) as (i & loc & Hr & Hi & Hlow & Hfirst).
  exists i, loc. repeat split; auto.
  eapply nth_error_In; eauto.
Qed.

(** C3. [compute_damage] is the sum, over the locations of the path that
    [find_path_to_edge] returns, of the number of attackers in range (for
    the given player index) times the turret's [damage_i]; it is 0 when the
    path is empty, and when no location of the path has an attacker in
    range. *)
Theorem compute_damage_is_path_sum (gs : GS) (start : Location) (p : Z) :
  (compute_damage gs start p
   == Qsum (map (fun l => inject_Z (Z.of_nat (length (get_attackers gs l p)))
                          * damage_i gs TURRET)
                (find_path_to_edge gs start)))%Q
  /\ (find_path_to_edge gs start = [] -> compute_damage gs start p = 0%Q)
  /\ ((forall l, In l (find_path_to_edge gs start) -> get_attackers gs l p = [])
      -> (compute_damage gs start p == 0)%Q).
Proof.
  split; [ apply compute_damage_sum | split ].
  - intros Hp. unfold compute_damage. now rewrite Hp.
  - intros Hnone. rewrite compute_damage_sum. apply Qsum_zero.
    intros x Hx. apply in_map_iff in Hx. destruct Hx as (l & <- & Hl).
    unfold shots. rewrite (Hnone l Hl). apply Qmult_0_l.
Qed.

(** C7. [least_damage_spawn_location] raises exactly when the candidate
    list is empty, and what it raises then is the [ValueError] of [min] on
    an empty sequence; on a non-empty list it returns a location. *)
Theorem least_damage_spawn_location_raises_iff_empty
    (gs : GS) (opts : list Location) :
  ((exists e, least_damage_spawn_location gs opts = inl e) <-> opts = [])
  /\ (opts = [] -> least_damage_spawn_location gs opts = inl ValueError)
  /\ (opts <> [] -> exists loc, least_damage_spawn_location gs opts = inr loc).
Proof.
  assert (Hok : opts <> [] ->
                exists loc, least_damage_spawn_location gs opts = inr loc).
  { intros Hne. destruct (least_damage_picks gs opts Hne) as (i & loc & Hr & _).
    now exists loc. }
  split; [ split | split ].
  - intros (e & He). destruct opts as [ | o opts ]; [ reflexivity | ].
    destruct Hok as (loc & Hloc); [ discriminate | congruence ].
  - intros ->. now exists ValueError.
  - intros ->. reflexivity.
  - exact Hok.
Qed.

(** C8. When the turret's [damage_i] is not negative, the estimate of
    [compute_damage] is not negative, for every start location and player
    index. *)
Theorem compute_damage_nonneg (gs : GS) (start : Location) (p : Z) :
  (0 <= damage_i gs TURRET)%Q -> (0 <= compute_damage gs start p)%Q.
Proof.
  intros Hd. rewrite compute_damage_sum. apply Qsum_nonneg.
  intros x Hx. apply in_map_iff in Hx. destruct Hx as (l & <- & _).
  now apply shots_nonneg.
Qed.

(** C4, amended. When there are candidates, [enemy_least_damage_target]
    looks at the first candidate [o] with the least damage estimate (player
    index 1) among the locations of the top-left edge followed by those of
    the top-right edge; when the path from [o] is not empty it returns the
    last location of that path, not [o], together with the estimate of
    [o]. *)
Theorem enemy_least_damage_target_returns_path_end (gs : GS) :
  get_edge_locations gs TOP_LEFT ++ get_edge_locations gs TOP_RIGHT <> [] ->
  exists i o,
    first_min (fun c => compute_damage gs c 1)
      (get_edge_locations gs TOP_LEFT ++ get_edge_locations gs TOP_RIGHT) i o
    /\ (find_path_to_edge gs o <> [] ->
        enemy_least_damage_target gs
        = inr (last (find_path_to_edge gs o) o, compute_damage gs o 1)).
Proof.
  intros Hne. destruct (enemy_target_picks gs Hne) as (i & o & Hfm & Hr).
  exists i, o. split; [ exact Hfm | ].
  intros Hpath. rewrite Hr.
  destruct (find_path_to_edge gs o); [ congruence | reflexivity ].
Qed.

(** C9. [enemy_least_damage_target] takes element [-1] of the path of the
    first candidate [o] with the least damage estimate: on every game
    state with candidates where that path is empty it raises [IndexError]
    and returns no pair, and where the path is not empty it returns a
    pair. *)
Theorem enemy_least_damage_target_needs_path (gs : GS) :
  enemy_options gs <> [] ->
  exists i o,
    first_min (fun c => compute_damage gs c 1) (enemy_options gs) i o
    /\ (find_path_to_edge gs o = [] ->
        enemy_least_damage_target gs = inl IndexError)
    /\ (find_path_to_edge gs o <> [] ->
        exists r, enemy_least_damage_target gs = inr r).
Proof.
  intros Hne. destruct (enemy_target_picks gs Hne) as (i & o & Hfm & Hr).
  exists i, o. split; [ exact Hfm | split ].
  - intros Hpath. rewrite Hr, Hpath. reflexivity.
  - intros Hpath. rewrite Hr.
    destruct (find_path_to_edge gs o); [ congruence | eauto ].
Qed.

End EstimatorFacts.

(** ** The turn planner *)

Lemma signals_app (p q : list Command) : signals (p ++ q) = signals p ++ signals q.
Proof. apply filter_app. Qed.

Lemma in_signals (c : Command) (p : list Command) :
  signalb c = true -> (In c p <-> In c (signals p)).
Proof.
  intros Hc. unfold signals. rewrite filter_In. tauto.
Qed.

Lemma signals_spawn_wall (ls : list Location) (n : Z) :
  signals [Spawn WALL ls n]
  = if locs_eqb ls (left_tunnel ++ right_tunnel) then [Spawn WALL ls n] else [].
Proof. reflexivity. Qed.

Lemma fill_in_gate_signals (mp fut : Q) (s : Location) :
  In fill_tunnels (gate_signals mp fut s) <-> (mp <= 11)%Q.
Proof.
  rewrite <- Qle_bool_iff. unfold gate_signals, fill_tunnels, open_left, open_right.
  destruct (Qle_bool mp 11), (Qlt_bool 11 fut), (Qlt_bool 11 mp); simpl;
    intuition congruence.
Qed.

Lemma open_in_gate_signals (mp fut : Q) (s : Location) :
  (In open_left (gate_signals mp fut s) <-> (11 < fut)%Q /\ (mp <= 11)%Q)
  /\ (In open_right (gate_signals mp fut s) <-> (11 < fut)%Q /\ (mp <= 11)%Q).
Proof.
  rewrite <- Qle_bool_iff, <- Qlt_bool_iff.
  unfold gate_signals, fill_tunnels, open_left, open_right.
  destruct (Qle_bool mp 11), (Qlt_bool 11 fut), (Qlt_bool 11 mp); simpl;
    intuition congruence.
Qed.

Lemma scouts_in_gate_signals (mp fut : Q) (s x : Location) :
  In (Spawn SCOUT [x] 100) (gate_signals mp fut s) <-> (11 < mp)%Q /\ x = s.
Proof.
  rewrite <- Qlt_bool_iff.
  unfold gate_signals, fill_tunnels, open_left, open_right.
  destruct (Qle_bool mp 11), (Qlt_bool 11 fut), (Qlt_bool 11 mp); simpl;
    intuition congruence.
Qed.

Section PlannerFacts.
Context {GS : Type} `{GameLib GS} `{!KeepsMobility GS}.

Lemma bind_ask {A B : Type} (q : GS -> A) (k : A -> Prog (Turn GS) B) t :
  bind (ask q) k t = k (q (board t)) t.
Proof. reflexivity. Qed.

Lemma Emits_ret {A : Type} (a : A) : Emits (ret a) [].
Proof.
  intros t. exists a, t. rewrite app_nil_r.
  repeat split; reflexivity.
Qed.

Lemma Emits_ask {A : Type} (q : GS -> A) : Emits (ask q) [].
Proof.
  intros t. exists (q (board t)), t. rewrite app_nil_r.
  repeat split; reflexivity.
Qed.

Lemma Emits_spawn (u : UnitType) (ls : list Location) (n : Z) :
  is_stationary u = true -> Emits (spawn u ls n) (signals [Spawn u ls n]).
Proof.
  intros Hu t. eexists tt, _. split; [ reflexivity | ]. simpl board. simpl plan.
  split; [ now apply spawn_keeps_mp | ].
  split; [ now apply spawn_keeps_future | apply signals_app ].
Qed.

Lemma Emits_upgrade (ls : list Location) : Emits (upgrade ls) [].
Proof.
  intros t. eexists tt, _. split; [ reflexivity | ]. simpl board. simpl plan.
  split; [ apply upgrade_keeps_mp | ].
  split; [ apply upgrade_keeps_future | apply signals_app ].
Qed.

Lemma Emits_remove (ls : list Location) : Emits (remove ls) [Remove ls].
Proof.
  intros t. eexists tt, _. split; [ reflexivity | ]. simpl board. simpl plan.
  split; [ apply remove_keeps_mp | ].
  split; [ apply remove_keeps_future | apply signals_app ].
Qed.

Lemma Emits_bind {A B : Type} (p : Prog (Turn GS) A) (k : A -> Prog (Turn GS) B)
    (l1 l2 : list Command) :
  Emits p l1 -> (forall a, Emits (k a) l2) -> Emits (bind p k) (l1 ++ l2).
Proof.
  intros Hp Hk t.
  destruct (Hp t) as (a & t1 & Ep & Hm1 & Hf1 & Hs1).
  destruct (Hk a t1) as (b & t2 & Ek & Hm2 & Hf2 & Hs2).
  exists b, t2. unfold bind. rewrite Ep, Ek.
  split; [ reflexivity | ].
  split; [ now rewrite Hm2 | ].
  split; [ now rewrite Hf2 | ].
  now rewrite Hs2, Hs1, app_assoc.
Qed.

Lemma Emits_lift_bind {A B : Type} (m : Exc A) (a : A)
    (k : A -> Prog (Turn GS) B) (l : list Command) :
  m = inr a -> Emits (k a) l -> Emits (bind (lift m) k) l.
Proof.
  intros -> Hk t. destruct (Hk t) as (b & t' & Ek & Hrest).
  exists b, t'. split; [ exact Ek | exact Hrest ].
Qed.

Lemma Emits_when (b : bool) (p : Prog (Turn GS) unit) (l : list Command) :
  Emits p l -> Emits (when b p) (if b then l else []).
Proof.
  intros Hp. destruct b; [ exact Hp | apply Emits_ret ].
Qed.

Lemma Emits_build (u : UnitType) (ls : list Location) (n : Z) :
  signalb (Spawn u ls n) = false -> Emits (spawn u ls n) [].
Proof.
  intros Hc.
  assert (Hu : is_stationary u = true).
  { simpl in Hc. apply orb_false_iff in Hc. destruct Hc as (Hc & _).
    now apply negb_false_iff in Hc. }
  pose proof (Emits_spawn u ls n Hu) as Hs.
  change (signals [Spawn u ls n])
    with (if signalb (Spawn u ls n) then [Spawn u ls n] else []) in Hs.
  rewrite Hc in Hs. exact Hs.
Qed.

Lemma Emits_when_quiet (b : bool) (p : Prog (Turn GS) unit) :
  Emits p [] -> Emits (when b p) [].
Proof.
  intros Hp. destruct b; [ exact Hp | apply Emits_ret ].
Qed.

Lemma Emits_for_each {A : Type} (xs : list A) (body : A -> Prog (Turn GS) unit) :
  (forall x, In x xs -> Emits (body x) []) -> Emits (for_each xs body) [].
Proof.
  induction xs as [ | x xs IH ]; intros Hbody; simpl.
  - apply Emits_ret.
  - change (@nil Command) with (@nil Command ++ []).
    apply Emits_bind; [ apply Hbody; now left | ].
    intros _. apply IH. intros y Hy. apply Hbody. now right.
Qed.

Lemma Emits_spawn_pair (i : Z) : 0 <= i < 5 -> Emits (spawn_pair i) [].
Proof.
  intros Hi.
  assert (Hcases : i = 0 \/ i = 1 \/ i = 2 \/ i = 3 \/ i = 4) by lia.
  destruct Hcases as [ -> | [ -> | [ -> | [ -> | -> ] ] ] ];
    unfold spawn_pair;
    (eapply Emits_lift_bind; [ reflexivity | ]);
    (eapply Emits_lift_bind; [ reflexivity | ]);
    exact (Emits_spawn WALL _ 1 eq_refl).
Qed.

Lemma Emits_reinforce (x : Location) :
  locs_eqb [x] (left_tunnel ++ right_tunnel) = false -> Emits (reinforce x) [].
Proof.
  intros Hx. unfold reinforce. intros t. rewrite bind_ask.
  destruct (contains_stationary_unit (board t) x).
  - apply Emits_upgrade.
  - pose proof (Emits_spawn WALL [x] 1 eq_refl t) as Hs.
    rewrite signals_spawn_wall, Hx in Hs. exact Hs.
Qed.

Lemma Emits_reinforce_all (x : Location) :
  In x reinforce_location -> Emits (reinforce x) [].
Proof.
  intros Hx. apply Emits_reinforce.
  repeat (destruct Hx as [ <- | Hx ]; [ reflexivity | ]). destruct Hx.
Qed.

Lemma release_test_value (t : Turn GS) :
  release_test t
  = (inr (Qlt_bool 11 (project_future_MP (board t))
          && Qle_bool (get_resource (board t) 1 0) 11), t).
Proof.
  unfold release_test. rewrite bind_ask.
  destruct (Qlt_bool 11 (project_future_MP (board t))); reflexivity.
Qed.

(** Running a step that returns: the rest of the program goes on from a
    state with the same mobility resource and forecast, and with the
    step's signals added. *)
Lemma then_emits {A B : Type} (p : Prog (Turn GS) A) (l : list Command)
    (k : A -> Prog (Turn GS) B) (t : Turn GS) :
  Emits p l ->
  exists a t',
    (get_resource (board t') 1 0 == get_resource (board t) 1 0)%Q
    /\ (project_future_MP (board t') == project_future_MP (board t))%Q
    /\ signals (plan t') = signals (plan t) ++ l
    /\ bind p k t = k a t'.
Proof.
  intros Hp. destruct (Hp t) as (a & t' & Ep & Hm & Hf & Hs).
  exists a, t'. repeat split; auto. unfold bind. now rewrite Ep.
Qed.

(** One more step of the run [Hr] that returns: [Hmp], [Hfut] and [Hsig]
    describe the state before it, and the state after it afterwards. *)
Ltac run_step Hr Hmp Hfut Hsig HE :=
  match type of Hr with
  | _ = bind ?p ?k ?t =>
      let a := fresh "a" in
      let t' := fresh "t" in
      let Hm := fresh "Hm" in
      let Hf := fresh "Hf" in
      let Hs := fresh "Hs" in
      let He := fresh "He" in
      destruct (then_emits p _ k t HE) as (a & t' & Hm & Hf & Hs & He);
      rewrite He in Hr; clear He;
      rewrite Hmp in Hm; rewrite Hfut in Hf; rewrite Hsig in Hs;
      clear Hmp Hfut Hsig;
      rename Hm into Hmp; rename Hf into Hfut; rename Hs into Hsig;
      try rewrite app_nil_r in Hsig
  end.

(** The run of [starter_strategy] on a fresh game state: it returns, and
    the signals of its plan are those of the three resource tests, taken
    on the mobility resource and the forecast of the turn's start. *)
Lemma starter_strategy_signals (gs : GS) :
  exists t' start,
    starter_strategy (mkTurn gs []) = (inr tt, t')
    /\ signals (plan t')
       = gate_signals (get_resource gs 1 0) (project_future_MP gs) start.
Proof.
  set (mp := get_resource gs 1 0). set (fut := project_future_MP gs).
  remember (starter_strategy (mkTurn gs [])) as r eqn:Hr.
  unfold starter_strategy in Hr.
  assert (Hmp : (get_resource (board (mkTurn gs [])) 1 0 == mp)%Q) by reflexivity.
  assert (Hfut : (project_future_MP (board (mkTurn gs [])) == fut)%Q) by reflexivity.
  assert (Hsig : signals (plan (mkTurn gs [])) = []) by reflexivity.
  revert Hr Hmp Hfut Hsig. generalize (mkTurn gs []). intros t Hr Hmp Hfut Hsig.
  (* the first turn's walls and the turrets *)
  rewrite bind_ask in Hr.
  run_step Hr Hmp Hfut Hsig
    (Emits_when_quiet (turn_number (board t) =? 0) _
       (Emits_build WALL wall_locations 1 eq_refl)).
  run_step Hr Hmp Hfut Hsig (Emits_build TURRET [(2,11); (25,11)] 1 eq_refl).
  run_step Hr Hmp Hfut Hsig (Emits_upgrade [(2,11); (25,11)]).
  run_step Hr Hmp Hfut Hsig (Emits_build TURRET [(9,9); (18,9)] 1 eq_refl).
  (* the tunnels are filled when the mobility resource is at most 11 *)
  rewrite bind_ask in Hr.
  rewrite (Qleb_comp _ _ Hmp _ _ (Qeq_refl 11)) in Hr.
  run_step Hr Hmp Hfut Hsig
    (Emits_when (Qle_bool mp 11) _ _
       (Emits_spawn WALL (left_tunnel ++ right_tunnel) 1 eq_refl)).
  (* the walls of the middle and of the sides, the reinforcement *)
  run_step Hr Hmp Hfut Hsig
    (Emits_build WALL (py_slice mid_location 1 6 2) 1 eq_refl).
  run_step Hr Hmp Hfut Hsig
    (Emits_for_each (py_range 0 3) spawn_pair
       (fun i Hi => Emits_spawn_pair i (py_range_bounds 0 3 5 i eq_refl Hi))).
  run_step Hr Hmp Hfut Hsig (Emits_upgrade [(9,9); (18,9)]).
  run_step Hr Hmp Hfut Hsig
    (Emits_for_each reinforce_location reinforce Emits_reinforce_all).
  run_step Hr Hmp Hfut Hsig
    (Emits_for_each (py_range 3 5) spawn_pair
       (fun i Hi => Emits_spawn_pair i (py_range_bounds 3 5 5 i eq_refl Hi))).
  run_step Hr Hmp Hfut Hsig
    (Emits_build WALL (py_slice mid_location 0 6 2) 1 eq_refl).
  (* the tunnels are opened *)
  unfold bind at 1 in Hr. rewrite release_test_value in Hr.
  unfold Qlt_bool at 1 in Hr.
  rewrite (Qleb_comp _ _ Hmp _ _ (Qeq_refl 11)) in Hr.
  rewrite (Qleb_comp _ _ Hfut _ _ (Qeq_refl 11)) in Hr.
  fold (Qlt_bool 11 fut) in Hr.
  run_step Hr Hmp Hfut Hsig
    (Emits_when (Qlt_bool 11 fut && Qle_bool mp 11) _ _
       (Emits_bind (remove left_tunnel) (fun _ => remove right_tunnel) _ _
          (Emits_remove left_tunnel) (fun _ => Emits_remove right_tunnel))).
  (* the scouts are deployed when the mobility resource is above 11 *)
  rewrite bind_ask in Hr. unfold Qlt_bool at 1 in Hr.
  rewrite (Qleb_comp _ _ Hmp _ _ (Qeq_refl 11)) in Hr.
  fold (Qlt_bool 11 mp) in Hr.
  unfold gate_signals.
  match type of Hr with _ = _ ?tl => rename tl into t_end end.
  destruct (Qlt_bool 11 mp).
  - destruct (least_damage_picks (board t_end) scout_options)
      as (i & start & Hstart & _); [ discriminate | ].
    unfold when, bind, spawn in Hr. rewrite Hstart in Hr.
    eexists _, start. split; [ exact Hr | ].
    simpl plan. rewrite signals_app, Hsig. rewrite <- !app_assoc. reflexivity.
  - exists t_end, (0, 0). split; [ exact Hr | ].
    rewrite Hsig, app_nil_r. reflexivity.
Qed.

(** The plan of a turn, by the mobility resource and its forecast at the
    turn's start. *)
Lemma turn_plan_signals (gs : GS) :
  fst (starter_strategy (mkTurn gs [])) = inr tt
  /\ exists start,
       signals (turn_plan gs)
       = gate_signals (get_resource gs 1 0) (project_future_MP gs) start.
Proof.
  destruct (starter_strategy_signals gs) as (t' & start & Hrun & Hsig).
  unfold turn_plan. rewrite Hrun. split; [ reflexivity | now exists start ].
Qed.

(** C5, amended. On a game engine whose structure requests leave the
    mobility resource and its forecast alone, the plan asks to remove the
    walls of the left tunnel and those of the right tunnel exactly when
    [project_future_MP()] is above 11 and the mobility resource
    ([get_resource(1, 0)]) is at most 11; in particular with a mobility
    resource of 11 and a forecast of 15 both removals are requested. The
    structure resource is not looked at. *)
Theorem tunnels_opened_iff_push_is_near (gs : GS) :
  fst (starter_strategy (mkTurn gs [])) = inr tt
  /\ (In open_left (turn_plan gs) /\ In open_right (turn_plan gs)
      <-> (11 < project_future_MP gs)%Q /\ (get_resource gs MP 0 <= 11)%Q)
  /\ (In open_left (turn_plan gs) <-> In open_right (turn_plan gs))
  /\ ((get_resource gs MP 0 == 11)%Q -> (project_future_MP gs == 15)%Q ->
      In open_left (turn_plan gs) /\ In open_right (turn_plan gs)).
Proof.
  destruct (turn_plan_signals gs) as (Hret & start & Hsig).
  destruct (open_in_gate_signals (get_resource gs 1 0) (project_future_MP gs) start)
    as (Hl & Hr).
  rewrite <- Hsig in Hl, Hr.
  rewrite <- (in_signals open_left) in Hl by reflexivity.
  rewrite <- (in_signals open_right) in Hr by reflexivity.
  change (get_resource gs 1 0) with (get_resource gs MP 0) in Hl, Hr.
  split; [ exact Hret | split; [ tauto | split; [ tauto | ] ] ].
  intros Hmp Hfut.
  assert (Hcond : (11 < project_future_MP gs)%Q /\ (get_resource gs MP 0 <= 11)%Q)
    by (split; lra).
  split; [ now apply Hl | now apply Hr ].
Qed.

End PlannerFacts.

(** ** The strategy on the arena *)

Lemma place_keeps_mobility (u : UnitType) (a : Arena) (l : Location) :
  a_mp (place u a l) = a_mp a /\ a_future_mp (place u a l) = a_future_mp a.
Proof.
  unfold place.
  destruct (occupied a l || Qlt_bool (a_sp a) (a_cost a u)); split; reflexivity.
Qed.

Lemma improve_keeps_mobility (a : Arena) (l : Location) :
  a_mp (improve a l) = a_mp a /\ a_future_mp (improve a l) = a_future_mp a.
Proof.
  unfold improve.
  destruct (negb (occupied a l) || existsb (loc_eqb l) (a_upgraded a)
            || Qlt_bool (a_sp a) (a_cost a SUPPORT)); split; reflexivity.
Qed.

Lemma fold_keeps_mobility (step : Arena -> Location -> Arena) (ls : list Location) :
  (forall a l, a_mp (step a l) = a_mp a /\ a_future_mp (step a l) = a_future_mp a) ->
  forall a,
    a_mp (fold_left step ls a) = a_mp a
    /\ a_future_mp (fold_left step ls a) = a_future_mp a.
Proof.
  intros Hstep. induction ls as [ | l ls IH ]; intros a; simpl.
  - split; reflexivity.
  - destruct (IH (step a l)) as (Hm & Hf). destruct (Hstep a l) as (Hm' & Hf').
    split; congruence.
Qed.

(** The arena pays structures from the structure resource. *)
Lemma arena_keeps_mobility : KeepsMobility Arena.
Proof.
  constructor.
  - intros a u ls n Hu. simpl. unfold arena_spawn. rewrite Hu.
    change (a_mp (fold_left (place u) ls a) == a_mp a)%Q.
    now rewrite (proj1 (fold_keeps_mobility (place u) ls (place_keeps_mobility u) a)).
  - intros a u ls n Hu. simpl. unfold arena_spawn. rewrite Hu.
    now rewrite (proj2 (fold_keeps_mobility (place u) ls (place_keeps_mobility u) a)).
  - intros a ls. simpl.
    change (a_mp (fold_left improve ls a) == a_mp a)%Q.
    now rewrite (proj1 (fold_keeps_mobility improve ls improve_keeps_mobility a)).
  - intros a ls. simpl.
    now rewrite (proj2 (fold_keeps_mobility improve ls improve_keeps_mobility a)).
  - intros a ls. reflexivity.
  - intros a ls. reflexivity.
Qed.

Lemma saving_arena_signals : signals (turn_plan saving_arena) = [fill_tunnels].
Proof. vm_compute. reflexivity. Qed.

Lemma pushing_arena_signals :
  signals (turn_plan pushing_arena) = [Spawn SCOUT [(10,3)] 100].
Proof. vm_compute. reflexivity. Qed.

(** C1, as stated, fails: with a structure resource of 12 and a mobility
    resource of 5 the plan fills the tunnels and deploys no scouts; and
    with a mobility resource of 12 the plan still asks for a wall at the
    tunnel cell (6,10), with the side walls. *)
Lemma structure_resource_does_not_gate_tunnels :
  ((get_resource saving_arena SP 0 == 12)%Q
   /\ In fill_tunnels (turn_plan saving_arena)
   /\ ~ deploys_scouts (turn_plan saving_arena)
   /\ ~ (In fill_tunnels (turn_plan saving_arena)
         <-> (get_resource saving_arena SP 0 <= 11)%Q))
  /\ ((get_resource pushing_arena MP 0 == 12)%Q
      /\ wall_requested_at (6,10)%Z (turn_plan pushing_arena)).
Proof.
  split;
    [ | split; [ reflexivity | ];
        exists [(6,10); (21,10)], 1; split; [ | now left ];
        vm_compute; tauto ].
  assert (Hin : In fill_tunnels (turn_plan saving_arena)).
  { apply (proj2 (in_signals fill_tunnels (turn_plan saving_arena) eq_refl)).
    rewrite saving_arena_signals. now left. }
  split; [ reflexivity | split; [ exact Hin | split ] ].
  - intros (x & Hx).
    apply (proj1 (in_signals (Spawn SCOUT [x] 100) (turn_plan saving_arena) eq_refl))
      in Hx.
    rewrite saving_arena_signals in Hx.
    destruct Hx as [ Hx | [] ]. discriminate Hx.
  - intros (Hif & _). specialize (Hif Hin).
    change (12 <= 11)%Q in Hif. lra.
Qed.

(** C5, as stated, fails: with a structure resource of 11, a mobility
    resource of 12 and a forecast of 15, no removal is requested. *)
Lemma structure_resource_does_not_open_tunnels :
  (get_resource pushing_arena SP 0 == 11)%Q
  /\ (project_future_MP pushing_arena == 15)%Q
  /\ ~ In open_left (turn_plan pushing_arena)
  /\ ~ In open_right (turn_plan pushing_arena)
  /\ ~ (In open_left (turn_plan pushing_arena)
        /\ In open_right (turn_plan pushing_arena)
        <-> (11 < project_future_MP pushing_arena)%Q
            /\ (get_resource pushing_arena SP 0 <= 11)%Q).
Proof.
  assert (Hl : ~ In open_left (turn_plan pushing_arena)).
  { intros Hx.
    apply (proj1 (in_signals open_left (turn_plan pushing_arena) eq_refl)) in Hx.
    rewrite pushing_arena_signals in Hx.
    destruct Hx as [ Hx | [] ]. discriminate Hx. }
  assert (Hr : ~ In open_right (turn_plan pushing_arena)).
  { intros Hx.
    apply (proj1 (in_signals open_right (turn_plan pushing_arena) eq_refl)) in Hx.
    rewrite pushing_arena_signals in Hx.
    destruct Hx as [ Hx | [] ]. discriminate Hx. }
  split; [ reflexivity | split; [ reflexivity | split; [ exact Hl | split; [ exact Hr | ] ] ] ].
  intros (_ & Hif).
  assert (Hcond : (11 < 15)%Q /\ (11 <= 11)%Q) by (split; lra).
  destruct (Hif Hcond) as (Hopen & _). exact (Hl Hopen).
Qed.

(** The plan of a turn with 11 mobility points and 15 forecast on the
    arena. *)
Lemma tunnels_opened_iff_push_is_near_witness :
  fst (starter_strategy (mkTurn waiting_arena [])) = inr tt
  /\ (In open_left (turn_plan waiting_arena) /\ In open_right (turn_plan waiting_arena)
      <-> (11 < project_future_MP waiting_arena)%Q
          /\ (get_resource waiting_arena MP 0 <= 11)%Q)
  /\ (In open_left (turn_plan waiting_arena) <-> In open_right (turn_plan waiting_arena))
  /\ ((get_resource waiting_arena MP 0 == 11)%Q ->
      (project_future_MP waiting_arena == 15)%Q ->
      In open_left (turn_plan waiting_arena) /\ In open_right (turn_plan waiting_arena)).
Proof.
  exact (@tunnels_opened_iff_push_is_near Arena arena_gamelib
           arena_keeps_mobility waiting_arena).
Defined.

Lemma duel_first_min :
  first_min (fun c => compute_damage duel_arena c 1) (enemy_options duel_arena)
    0 (13,27).
Proof.
  split; [ reflexivity | split ].
  - intros c [ <- | [ <- | [] ] ]; vm_compute; intros Hc; discriminate Hc.
  - intros j c Hj. lia.
Qed.

Lemma sealed_first_min :
  first_min (fun c => compute_damage sealed_arena c 1) (enemy_options sealed_arena)
    0 (13,27).
Proof.
  split; [ reflexivity | split ].
  - intros c [ <- | [ <- | [] ] ]; vm_compute; intros Hc; discriminate Hc.
  - intros j c Hj. lia.
Qed.

(** C4, as stated, fails: the candidate with the least damage is the entry
    (13,27), and the location returned is (13,0), the end of its path, which
    is no candidate. *)
Lemma enemy_target_is_not_the_entry :
  enemy_least_damage_target duel_arena = inr ((13,0), 0%Q)
  /\ first_min (fun c => compute_damage duel_arena c 1) (enemy_options duel_arena)
       0 (13,27)
  /\ ~ In (13,0) (enemy_options duel_arena).
Proof.
  split; [ vm_compute; reflexivity | split; [ exact duel_first_min | ] ].
  intros [ Hc | [ Hc | [] ] ]; discriminate Hc.
Qed.

(** The safest of two start locations on the duel board. *)
Lemma least_damage_spawn_location_first_min_witness :
  exists i loc,
    least_damage_spawn_location duel_arena [(14,0); (13,0)] = inr loc
    /\ nth_error [(14,0); (13,0)] i = Some loc
    /\ In loc [(14,0); (13,0)]
    /\ (forall c, In c [(14,0); (13,0)] ->
          (compute_damage duel_arena loc 0 <= compute_damage duel_arena c 0)%Q)
    /\ (forall j c, (j < i)%nat -> nth_error [(14,0); (13,0)] j = Some c ->
          (compute_damage duel_arena loc 0 < compute_damage duel_arena c 0)%Q).
Proof.
  apply (@least_damage_spawn_location_first_min Arena arena_gamelib duel_arena
           [(14,0); (13,0)]).
  discriminate.
Defined.

(** The turret of the duel board has damage 5. *)
Lemma compute_damage_nonneg_witness :
  (0 <= damage_i duel_arena TURRET)%Q
  /\ (0 <= compute_damage duel_arena (14,27)%Z 1)%Q.
Proof.
  assert (Hd : (0 <= damage_i duel_arena TURRET)%Q)
    by (vm_compute; intros Hc; discriminate Hc).
  split; [ exact Hd | ].
  exact (@compute_damage_nonneg Arena arena_gamelib duel_arena (14,27) 1 Hd).
Defined.

(** The opponent's safest entry on the duel board. *)
Lemma enemy_least_damage_target_returns_path_end_witness :
  exists i o,
    first_min (fun c => compute_damage duel_arena c 1)
      (get_edge_locations duel_arena TOP_LEFT
       ++ get_edge_locations duel_arena TOP_RIGHT) i o
    /\ (find_path_to_edge duel_arena o <> [] ->
        enemy_least_damage_target duel_arena
        = inr (last (find_path_to_edge duel_arena o) o,
               compute_damage duel_arena o 1)).
Proof.
  apply (@enemy_least_damage_target_returns_path_end Arena arena_gamelib duel_arena).
  discriminate.
Defined.

(** On the sealed board the candidate with the least damage has no path,
    and [enemy_least_damage_target] raises [IndexError]. *)
Lemma enemy_least_damage_target_needs_path_witness :
  enemy_options sealed_arena <> []
  /\ find_path_to_edge sealed_arena (13,27) = []
  /\ enemy_least_damage_target sealed_arena = inl IndexError.
Proof.
  assert (Hne : enemy_options sealed_arena <> []) by discriminate.
  split; [ exact Hne | split; [ reflexivity | ] ].
  destruct (@enemy_least_damage_target_needs_path Arena arena_gamelib
              sealed_arena Hne) as (i & o & Hfm & Hraise & _).
  destruct (first_min_unique _ _ _ _ _ _ Hfm sealed_first_min) as (_ & ->).
  apply Hraise. reflexivity.
Defined.

(** ** The breach tracker *)

Lemma record_breach_event (b : Breach) (h : History) :
  record_breach (breach_json b) h
  = (inr tt, if py_eq_int (breach_owner b) 1 then h else h ++ [breach_location b]).
Proof.
  assert (H0 : py_subscript (breach_json b) 0 = inr (breach_location b))
    by reflexivity.
  assert (H4 : py_subscript (breach_json b) 4 = inr (breach_owner b))
    by reflexivity.
  unfold record_breach, bind, lift, unit_owner_self. rewrite H0, H4.
  destruct (py_eq_int (breach_owner b) 1); reflexivity.
Qed.

Lemma for_each_record_breach (bs : list Breach) : forall h,
  for_each (map breach_json bs) record_breach h = (inr tt, h ++ scored_on bs).
Proof.
  unfold scored_on.
  induction bs as [ | b bs IH ]; intros h; simpl.
  - now rewrite app_nil_r.
  - unfold bind. rewrite record_breach_event. unfold unit_owner_self.
    destruct (py_eq_int (breach_owner b) 1); simpl; rewrite IH.
    + reflexivity.
    + now rewrite <- app_assoc.
Qed.

Lemma on_action_frame_carries (state : json) (bs : list Breach) (h : History) :
  carries state bs -> on_action_frame state h = (inr tt, h ++ scored_on bs).
Proof.
  intros (events & Hev & Hbr).
  unfold on_action_frame, bind, lift. rewrite Hev, Hbr. simpl py_iter. cbv iota.
  apply for_each_record_breach.
Qed.

(** Whatever the event is, [record_breach] only appends. *)
Lemma record_breach_extends (x : json) (h : History) :
  exists more, snd (record_breach x h) = h ++ more.
Proof.
  unfold record_breach, bind, lift.
  destruct (py_subscript x 0) as [ e | location ];
    [ exists []; now rewrite app_nil_r | ].
  destruct (py_subscript x 4) as [ e | owner ];
    [ exists []; now rewrite app_nil_r | ].
  destruct (negb (unit_owner_self owner)).
  - now exists [location].
  - exists []. simpl. now rewrite app_nil_r.
Qed.

Lemma for_each_extends (items : list json) : forall h,
  exists more, snd (for_each items record_breach h) = h ++ more.
Proof.
  induction items as [ | x items IH ]; intros h; simpl.
  - exists []. now rewrite app_nil_r.
  - unfold bind. destruct (record_breach_extends x h) as (m1 & H1).
    destruct (record_breach x h) as [ [ e | [] ] h1 ]; simpl in H1; subst h1.
    + now exists m1.
    + destruct (IH (h ++ m1)) as (m2 & H2). exists (m1 ++ m2).
      now rewrite H2, app_assoc.
Qed.

(** Whatever the frame is, [on_action_frame] only appends. *)
Lemma on_action_frame_extends (state : json) (h : History) :
  exists more, snd (on_action_frame state h) = h ++ more.
Proof.
  unfold on_action_frame, bind, lift.
  destruct (py_getitem_str state "events") as [ e | events ];
    [ exists []; now rewrite app_nil_r | ].
  destruct (py_getitem_str events "breach") as [ e | breaches ];
    [ exists []; now rewrite app_nil_r | ].
  destruct (py_iter breaches) as [ e | items ];
    [ exists []; now rewrite app_nil_r | ].
  apply for_each_extends.
Qed.

Lemma after_frames_extends (states : list json) : forall h,
  exists more, after_frames states h = h ++ more.
Proof.
  unfold after_frames.
  induction states as [ | state states IH ]; intros h; simpl.
  - exists []. now rewrite app_nil_r.
  - destruct (on_action_frame_extends state h) as (m1 & H1). rewrite H1.
    destruct (IH (h ++ m1)) as (m2 & H2). exists (m1 ++ m2).
    now rewrite H2, app_assoc.
Qed.

Lemma carries_frame_of (bs : list Breach) : carries (frame_of bs) bs.
Proof.
  unfold carries, frame_of. eexists. split; reflexivity.
Qed.

Lemma scored_on_documented (bs : list Breach) :
  Forall owner_documented bs ->
  scored_on bs = map breach_location (filter owner_is_opponent bs).
Proof.
  unfold scored_on. induction 1 as [ | b bs Hb Hbs IH ]; [ reflexivity | ].
  simpl. unfold owner_is_opponent at 1, unit_owner_self at 1.
  destruct Hb as [ -> | -> ]; simpl; now rewrite IH.
Qed.

(** C6. Every call of [on_action_frame], whatever the frame, leaves the
    history recorded so far as a prefix of the new history, so over any
    sequence of calls the history only grows at its end and its length
    never decreases; a call on a frame with the breach events [bs] returns
    and appends, in order, the locations of the events whose owner is not
    the player itself, which for the owner codes 1 (the player) and 2 (the
    opponent) are the locations of the opponent's events; the events of the
    player's own units add nothing. After a frame with a breach at [5,7]
    by the opponent and a frame with a breach at [6,7] by the player, the
    history is [[5,7]]. *)
Theorem scored_on_locations_append_only :
  (forall state h, exists more, snd (on_action_frame state h) = h ++ more)
  /\ (forall states h, exists more, after_frames states h = h ++ more)
  /\ (forall states h, (length h <= length (after_frames states h))%nat)
  /\ (forall state bs h,
        carries state bs ->
        on_action_frame state h = (inr tt, h ++ scored_on bs))
  /\ (forall state bs h,
        carries state bs -> Forall owner_documented bs ->
        snd (on_action_frame state h)
        = h ++ map breach_location (filter owner_is_opponent bs))
  /\ after_frames [frame_of [breach_at (5,7) 2]; frame_of [breach_at (6,7) 1]] []
     = [loc_json (5,7)].
Proof.
  split; [ exact on_action_frame_extends | ].
  split; [ intros states h; apply after_frames_extends | ].
  split.
  { intros states h. destruct (after_frames_extends states h) as (more & ->).
    rewrite length_app. lia. }
  split; [ exact on_action_frame_carries | ].
  split; [ | reflexivity ].
  intros state bs h Hc Hdoc.
  rewrite (on_action_frame_carries state bs h Hc). simpl.
  now rewrite scored_on_documented.
Qed.


Lemma inject_Z_eq (a b : Z) : (inject_Z a == inject_Z b)%Q <-> a = b.
Proof.
  unfold Qeq. simpl. rewrite !Z.mul_1_r. reflexivity.
Qed.

(** The float test of [==] against 1 holds exactly for the floats that
    stand for 1. *)
Lemma float_is_one (f : spec_float) :
  float_is_int f 1 = true <-> exists q, float_value f = Some q /\ (q == 1)%Q.
Proof.
  destruct f as [ s | s | | s m e ]; simpl.
  - split; [ discriminate | ].
    intros (q & Hq & Hone). injection Hq as <-. discriminate Hone.
  - split; [ discriminate | intros (q & Hq & _); discriminate Hq ].
  - split; [ discriminate | intros (q & Hq & _); discriminate Hq ].
  - set (v := if s then Z.neg m else Z.pos m).
    destruct (0 <=? e) eqn:He.
    + rewrite Z.eqb_eq. split.
      * intros Hv. eexists. split; [ reflexivity | ].
        rewrite <- inject_Z_mult, Hv. reflexivity.
      * intros (q & Hq & Hone). injection Hq as <-.
        rewrite <- inject_Z_mult in Hone. change 1%Q with (inject_Z 1) in Hone.
        exact (proj1 (inject_Z_eq _ 1) Hone).
    + apply Z.leb_gt in He.
      assert (Hpos : 0 < 2 ^ (- e)) by (apply Z.pow_pos_nonneg; lia).
      assert (Hnz : ~ (inject_Z (2 ^ (- e)) == 0)%Q).
      { intros H0. change 0%Q with (inject_Z 0) in H0.
        apply (proj1 (inject_Z_eq _ 0)) in H0. lia. }
      rewrite Z.eqb_eq.
      change (match 2 ^ (- e) with
              | 0 => 0
              | Z.pos y' => Z.pos y'
              | Z.neg y' => Z.neg y'
              end) with (1 * 2 ^ (- e)).
      rewrite Z.mul_1_l. split.
      * intros Hv. eexists. split; [ reflexivity | ].
        rewrite Hv. now apply Qmult_inv_r.
      * intros (q & Hq & Hone). injection Hq as <-.
        apply (proj1 (inject_Z_eq v (2 ^ (- e)))).
        rewrite <- (Qmult_1_l (inject_Z (2 ^ (- e)))), <- Hone.
        rewrite <- Qmult_assoc, (Qmult_comm (/ _)), Qmult_inv_r by exact Hnz.
        now rewrite Qmult_1_r.
Qed.

(** [unit_owner_self] holds exactly for the owners that Python takes for
    equal to 1. *)
Lemma unit_owner_self_iff (v : json) : unit_owner_self v = true <-> equals_one v.
Proof.
  unfold unit_owner_self.
  destruct v as [ | b | n | f | s | l | d ]; simpl;
    try (split; [ discriminate | contradiction ]).
  - destruct b; simpl; split; congruence.
  - destruct (n =? 1) eqn:E.
    + apply Z.eqb_eq in E. tauto.
    + apply Z.eqb_neq in E. split; [ discriminate | contradiction ].
  - rewrite <- float_is_one.
    destruct (float_is_int f 1); split; congruence.
Qed.

(** C10, amended. [on_action_frame] takes a breach event for the player's
    own exactly when its fifth element is equal to 1 as Python's [==] has
    it: the integer 1, the boolean [true], or a float that stands for 1.
    On a frame with breach events it returns and appends, in order, the
    locations of all the other events: those whose owner is an integer
    other than 1 (the opponent's code 2 or not), [false], a float that does
    not stand for 1, null, a string, a list or an object. *)
Theorem owner_other_than_one_is_scored_on :
  (forall v, unit_owner_self v = true <-> equals_one v)
  /\ (forall state bs h,
        carries state bs ->
        on_action_frame state h
        = (inr tt,
           h ++ map breach_location
                  (filter (fun b => negb (unit_owner_self (breach_owner b))) bs)))
  /\ (forall state b h,
        carries state [b] ->
        equals_one (breach_owner b) ->
        on_action_frame state h = (inr tt, h))
  /\ (forall state b h,
        carries state [b] ->
        ~ equals_one (breach_owner b) ->
        on_action_frame state h = (inr tt, h ++ [breach_location b])).
Proof.
  split; [ exact unit_owner_self_iff | ].
  split; [ exact on_action_frame_carries | ].
  split.
  - intros state b h Hc Hone.
    rewrite (on_action_frame_carries state [b] h Hc). unfold scored_on. simpl.
    apply unit_owner_self_iff in Hone. rewrite Hone. simpl. now rewrite app_nil_r.
  - intros state b h Hc Hnot.
    rewrite (on_action_frame_carries state [b] h Hc). unfold scored_on. simpl.
    destruct (unit_owner_self (breach_owner b)) eqn:E; [ | reflexivity ].
    apply unit_owner_self_iff in E. contradiction.
Qed.

(** C10, as stated, fails: an owner field that is [true], or the float
    1.0, is not the integer 1, yet the event counts as the player's own and
    its location is not appended. *)
Lemma owner_true_counts_as_own :
  JBool true <> JInt 1
  /\ on_action_frame (frame_of [breach_owned (5,7) (JBool true)]) []
     = (inr tt, [])
  /\ JFloat float_one <> JInt 1
  /\ on_action_frame (frame_of [breach_owned (5,7) (JFloat float_one)]) []
     = (inr tt, []).
Proof.
  split; [ discriminate | split; [ reflexivity | split; [ discriminate | ] ] ].
  vm_compute. reflexivity.
Qed.

(** ** The whole turn *)

Lemma in_reinforce_requests (c : Command) (xs : list Location) :
  forall held,
    In c (reinforce_requests xs held) ->
    exists x, In x xs /\ (c = Upgrade [x] \/ c = Spawn WALL [x] 1).
Proof.
  induction xs as [ | x xs IH ]; intros [ | b held ] Hc; try destruct Hc.
  - exists x. split; [ now left | ]. destruct b; [ now left | now right ].
  - destruct (IH held H) as (y & Hy & Hcy). exists y. split; [ now right | exact Hcy ].
Qed.

(** A request that is none of the listed ones. *)
Ltac refute_request Hc :=
  cbv in Hc;
  repeat (destruct Hc as [ Hc | Hc ]; [ try discriminate Hc; try congruence | ]);
  try discriminate Hc; try congruence; try contradiction.

Lemma reinforce_location_NoDup : NoDup reinforce_location.
Proof.
  unfold reinforce_location.
  repeat (constructor; [ intros Hin; refute_request Hin | ]). constructor.
Qed.

(** Among the requests of the reinforcement loop, each location has its
    upgrade or its wall, not both. *)
Lemma reinforce_requests_one (xs : list Location) :
  NoDup xs ->
  forall held x,
    length held = length xs -> In x xs ->
    (In (Upgrade [x]) (reinforce_requests xs held)
     /\ ~ In (Spawn WALL [x] 1) (reinforce_requests xs held))
    \/ (~ In (Upgrade [x]) (reinforce_requests xs held)
        /\ In (Spawn WALL [x] 1) (reinforce_requests xs held)).
Proof.
  induction 1 as [ | x0 xs Hnotin Hnodup IH ]; intros held x Hlen Hx.
  - destruct Hx.
  - destruct held as [ | b held ]; [ discriminate Hlen | ].
    injection Hlen as Hlen. simpl reinforce_requests.
    assert (Htail : forall c, c = Upgrade [x0] \/ c = Spawn WALL [x0] 1 ->
                    ~ In c (reinforce_requests xs held)).
    { intros c Hc Hin. apply in_reinforce_requests in Hin.
      destruct Hin as (y & Hy & Hcy). apply Hnotin.
      destruct Hc as [ -> | -> ]; destruct Hcy as [ Hcy | Hcy ];
        try discriminate Hcy; injection Hcy as ->; exact Hy. }
    destruct Hx as [ -> | Hx ].
    + destruct b; [ left | right ]; split.
      * now left.
      * intros [ Hc | Hc ]; [ discriminate Hc | ].
        apply (Htail _ (or_intror eq_refl) Hc).
      * intros [ Hc | Hc ]; [ discriminate Hc | ].
        apply (Htail _ (or_introl eq_refl) Hc).
      * now left.
    + assert (Hne : x <> x0) by (intros ->; contradiction).
      destruct (IH held x Hlen Hx) as [ (Hu & Hw) | (Hu & Hw) ]; [ left | right ];
        split; try (now right);
        intros [ Hc | Hc ]; try contradiction;
        destruct b; try discriminate Hc; injection Hc as Hc; congruence.
Qed.

(** The parts a request of a plan can come from. *)
Lemma in_plan_parts (c : Command) (first fill : bool) (held : list bool)
    (release : bool) (push : option Location) :
  In c (structure_requests first fill held release ++ push_requests push) ->
  (first = true /\ c = Spawn WALL wall_locations 1)
  \/ In c (opening_requests false)
  \/ (fill = true /\ c = fill_tunnels)
  \/ In c middle_requests
  \/ (exists x, In x reinforce_location /\ (c = Upgrade [x] \/ c = Spawn WALL [x] 1))
  \/ In c closing_requests
  \/ (release = true /\ (c = open_left \/ c = open_right))
  \/ (exists s, c = Spawn SCOUT [s] 100).
Proof.
  intros Hc. apply in_app_iff in Hc. destruct Hc as [ Hc | Hc ].
  - unfold structure_requests, opening_requests in Hc.
    rewrite !in_app_iff in Hc.
    destruct Hc as [ [ Hc | Hc ] | [ Hc | [ Hc | [ Hc | [ Hc | Hc ] ] ] ] ].
    + destruct first; [ | destruct Hc ].
      destruct Hc as [ <- | [] ]. left. now split.
    + right; left. exact Hc.
    + destruct fill; [ | destruct Hc ].
      destruct Hc as [ <- | [] ]. right; right; left. now split.
    + right; right; right; left. exact Hc.
    + right; right; right; right; left.
      apply in_reinforce_requests in Hc. exact Hc.
    + right; right; right; right; right; left. exact Hc.
    + destruct release; [ | destruct Hc ].
      right; right; right; right; right; right; left.
      split; [ reflexivity | ].
      destruct Hc as [ <- | [ <- | [] ] ]; [ now left | now right ].
  - destruct push as [ s | ]; [ | destruct Hc ].
    destruct Hc as [ <- | [] ]. do 7 right. now exists s.
Qed.

(** The request that fills the tunnels is in a plan exactly when the test
    before it came out true. *)
Lemma fill_in_plan_parts (first fill : bool) (held : list bool)
    (release : bool) (push : option Location) :
  In fill_tunnels (structure_requests first fill held release ++ push_requests push)
  <-> fill = true.
Proof.
  split.
  - intros Hc. apply in_plan_parts in Hc.
    destruct Hc as [ (_ & Hc) | [ Hc | [ (Hf & _) | [ Hc | [ (x & _ & Hc) | [ Hc | [ (_ & Hc) | (s & Hc) ] ] ] ] ] ] ];
      try exact Hf; exfalso; refute_request Hc.
  - intros ->. apply in_or_app. left. unfold structure_requests.
    apply in_or_app. right. apply in_or_app. left. now left.
Qed.

(** The two tunnel cells of the third pair of side walls have their wall
    requested by every plan. *)
Lemma tunnel_mouth_in_plan_parts (x : Location) (first fill : bool)
    (held : list bool) (release : bool) (push : option Location) :
  In x tunnel_mouths ->
  wall_requested_at x
    (structure_requests first fill held release ++ push_requests push).
Proof.
  intros Hx. exists [(6,10); (21,10)], 1. split.
  - apply in_or_app. left. unfold structure_requests.
    apply in_or_app. right. apply in_or_app. right. apply in_or_app. left.
    unfold middle_requests. cbn [In]. tauto.
  - exact Hx.
Qed.

(** The other six tunnel cells have a wall requested exactly by the
    request that fills the tunnels and by the walls of the first turn. *)
Lemma tunnel_wall_in_plan_parts (x : Location) (first fill : bool)
    (held : list bool) (release : bool) (push : option Location) :
  In x tunnel_walls ->
  (wall_requested_at x
     (structure_requests first fill held release ++ push_requests push)
   <-> fill = true \/ first = true).
Proof.
  intros Hx. split.
  - intros (ls & n & Hc & Hin). apply in_plan_parts in Hc.
    destruct Hc as [ (Hf & _) | [ Hc | [ (Hf & _) | [ Hc | [ (y & Hy & Hc) | [ Hc | [ (_ & Hc) | (s & Hc) ] ] ] ] ] ] ].
    + now right.
    + exfalso. cbn [opening_requests app In] in Hc.
      destruct Hc as [ Hc | [ Hc | [ Hc | [] ] ] ]; discriminate Hc.
    + now left.
    + exfalso. cbn [middle_requests In] in Hc.
      destruct Hc as [ Hc | [ Hc | [ Hc | [ Hc | [ Hc | [] ] ] ] ] ];
        try discriminate Hc; injection Hc as <- _;
        repeat (destruct Hx as [ <- | Hx ]; [ refute_request Hin | ]);
        destruct Hx.
    + exfalso. destruct Hc as [ Hc | Hc ]; [ discriminate Hc | ].
      injection Hc as -> _. destruct Hin as [ -> | [] ].
      repeat (destruct Hx as [ <- | Hx ]; [ refute_request Hy | ]).
      destruct Hx.
    + exfalso. cbn [closing_requests In] in Hc.
      destruct Hc as [ Hc | [ Hc | [ Hc | [] ] ] ];
        injection Hc as <- _;
        repeat (destruct Hx as [ <- | Hx ]; [ refute_request Hin | ]);
        destruct Hx.
    + exfalso. destruct Hc as [ Hc | Hc ]; discriminate Hc.
    + discriminate Hc.
  - intros [ -> | -> ].
    + exists (left_tunnel ++ right_tunnel), 1. split.
      * apply (proj2 (fill_in_plan_parts first true held release push) eq_refl).
      * repeat (destruct Hx as [ <- | Hx ]; [ cbn; tauto | ]). destruct Hx.
    + exists wall_locations, 1. split.
      * apply in_or_app. left. unfold structure_requests, opening_requests.
        apply in_or_app. left. apply in_or_app. left. now left.
      * repeat (destruct Hx as [ <- | Hx ]; [ cbn; tauto | ]). destruct Hx.
Qed.

Section SessionFacts.
Context {GS : Type} `{GameLib GS}.

Lemma issue_all_app (gs : GS) (l1 l2 : list Command) :
  issue_all (issue_all gs l1) l2 = issue_all gs (l1 ++ l2).
Proof. unfold issue_all. now rewrite fold_left_app. Qed.

Lemma Requests_ret {A : Type} (a : A) (t : Turn GS) : Requests (ret a) t a [].
Proof.
  unfold Requests, ret. rewrite app_nil_r. destruct t. reflexivity.
Qed.

Lemma Requests_spawn (u : UnitType) (ls : list Location) (n : Z) (t : Turn GS) :
  Requests (spawn u ls n) t tt [Spawn u ls n].
Proof. reflexivity. Qed.

Lemma Requests_upgrade (ls : list Location) (t : Turn GS) :
  Requests (upgrade ls) t tt [Upgrade ls].
Proof. reflexivity. Qed.

Lemma Requests_remove (ls : list Location) (t : Turn GS) :
  Requests (remove ls) t tt [Remove ls].
Proof. reflexivity. Qed.

Lemma Requests_bind {A B : Type} (p : Prog (Turn GS) A)
    (k : A -> Prog (Turn GS) B) (t : Turn GS) (a : A) (b : B)
    (l1 l2 : list Command) :
  Requests p t a l1 ->
  Requests (k a) (mkTurn (issue_all (board t) l1) (plan t ++ l1)) b l2 ->
  Requests (bind p k) t b (l1 ++ l2).
Proof.
  unfold Requests, bind. intros -> ->. simpl board. simpl plan.
  now rewrite issue_all_app, app_assoc.
Qed.

Lemma Requests_when (b : bool) (p : Prog (Turn GS) unit) (t : Turn GS)
    (l : list Command) :
  Requests p t tt l -> Requests (when b p) t tt (if b then l else []).
Proof.
  intros Hp. destruct b; [ exact Hp | apply Requests_ret ].
Qed.

Lemma Requests_spawn_pair (i : Z) (l r : Location) (t : Turn GS) :
  py_getitem left_location i = inr l ->
  py_getitem right_location i = inr r ->
  Requests (spawn_pair i) t tt [Spawn WALL [l; r] 1].
Proof.
  intros Hl Hr. unfold Requests, spawn_pair, bind, lift. now rewrite Hl, Hr.
Qed.

Lemma Requests_reinforce (x : Location) (t : Turn GS) :
  Requests (reinforce x) t tt
    [if contains_stationary_unit (board t) x then Upgrade [x]
     else Spawn WALL [x] 1].
Proof.
  unfold Requests, reinforce. rewrite bind_ask.
  destruct (contains_stationary_unit (board t) x); reflexivity.
Qed.

(** The reinforcement loop makes one request per location. *)
Lemma Requests_reinforce_loop (xs : list Location) : forall t : Turn GS,
  exists held,
    length held = length xs
    /\ Requests (for_each xs reinforce) t tt (reinforce_requests xs held).
Proof.
  induction xs as [ | x xs IH ]; intros t.
  - exists []. split; [ reflexivity | apply Requests_ret ].
  - set (b := contains_stationary_unit (board t) x).
    set (c := if b then Upgrade [x] else Spawn WALL [x] 1).
    destruct (IH (mkTurn (issue_all (board t) [c]) (plan t ++ [c])))
      as (held & Hlen & Hrest).
    exists (b :: held). split; [ simpl; now rewrite Hlen | ].
    change (reinforce_requests (x :: xs) (b :: held))
      with ([c] ++ reinforce_requests xs held).
    simpl for_each.
    eapply Requests_bind; [ apply Requests_reinforce | exact Hrest ].
Qed.

Lemma Requests_first_pairs (t : Turn GS) :
  Requests (for_each (py_range 0 3) spawn_pair) t tt
    [Spawn WALL [(1,12); (26,12)] 1;
     Spawn WALL [(3,13); (24,13)] 1;
     Spawn WALL [(6,10); (21,10)] 1].
Proof.
  change (py_range 0 3) with [0; 1; 2]. simpl for_each.
  repeat (eapply (Requests_bind _ _ _ _ _ [_]);
          [ apply Requests_spawn_pair; reflexivity | ]).
  apply Requests_ret.
Qed.

Lemma Requests_last_pairs (t : Turn GS) :
  Requests (for_each (py_range 3 5) spawn_pair) t tt
    [Spawn WALL [(4,12); (23,12)] 1;
     Spawn WALL [(5,11); (22,11)] 1].
Proof.
  change (py_range 3 5) with [3; 4]. simpl for_each.
  repeat (eapply (Requests_bind _ _ _ _ _ [_]);
          [ apply Requests_spawn_pair; reflexivity | ]).
  apply Requests_ret.
Qed.

(** One step of a run from the state that the requests [L] have led to. *)
Lemma step_requests {A B : Type} (p : Prog (Turn GS) A)
    (k : A -> Prog (Turn GS) B) (gs : GS) (L : list Command) (a : A)
    (l : list Command) :
  Requests p (mkTurn (issue_all gs L) L) a l ->
  bind p k (mkTurn (issue_all gs L) L)
  = k a (mkTurn (issue_all gs (L ++ l)) (L ++ l)).
Proof.
  unfold Requests, bind. intros ->. simpl board. simpl plan.
  now rewrite issue_all_app.
Qed.

Ltac req_step Hr R :=
  match type of Hr with
  | _ = bind ?p ?k (mkTurn (issue_all ?gs ?L) ?L) =>
      rewrite (step_requests p k gs L _ _ (R (mkTurn (issue_all gs L) L))) in Hr
  end.

Ltac req_ask Hr :=
  rewrite bind_ask in Hr; cbn [board] in Hr.

(** The run of [starter_strategy] on a fresh game state, on any game
    engine: it returns, its requests are the structure requests of some
    outcome of the tests followed by the scouts, if any, and the start
    location of the scouts is the first of the eight with the least damage
    on the game state that the structure requests have led to. *)
Lemma starter_strategy_requests (gs : GS) :
  exists fill held release push,
    length held = 6%nat
    /\ Requests starter_strategy (mkTurn gs []) tt
         (structure_requests (turn_number gs =? 0) fill held release
          ++ push_requests push)
    /\ (forall s, push = Some s ->
          exists i,
            first_min
              (fun o =>
                 compute_damage
                   (issue_all gs
                      (structure_requests (turn_number gs =? 0) fill held release))
                   o 0)
              scout_options i s).
Proof.
  assert (Hr : starter_strategy (mkTurn gs []) = starter_strategy (mkTurn gs []))
    by reflexivity.
  unfold starter_strategy at 2 in Hr.
  change (mkTurn gs []) with (mkTurn (issue_all gs []) []) in Hr at 2.
  req_ask Hr. change (issue_all gs []) with gs in Hr at 1.
  req_step Hr (fun t => Requests_when (turn_number gs =? 0) _ t _
                          (Requests_spawn WALL wall_locations 1 t)).
  req_step Hr (Requests_spawn TURRET [(2,11); (25,11)] 1).
  req_step Hr (Requests_upgrade [(2,11); (25,11)]).
  req_step Hr (Requests_spawn TURRET [(9,9); (18,9)] 1).
  req_ask Hr.
  set (fill := Qle_bool _ 11) in Hr.
  req_step Hr (fun t => Requests_when fill _ t _
                 (Requests_spawn WALL (left_tunnel ++ right_tunnel) 1 t)).
  req_step Hr (Requests_spawn WALL (py_slice mid_location 1 6 2) 1).
  req_step Hr Requests_first_pairs.
  req_step Hr (Requests_upgrade [(9,9); (18,9)]).
  match type of Hr with
  | _ = bind _ _ ?t =>
      destruct (Requests_reinforce_loop reinforce_location t)
        as (held & Hheld & Hloop)
  end.
  req_step Hr (fun _ : Turn GS => Hloop).
  req_step Hr Requests_last_pairs.
  req_step Hr (Requests_spawn WALL (py_slice mid_location 0 6 2) 1).
  unfold bind at 1 in Hr. rewrite release_test_value in Hr. cbn [board] in Hr.
  set (release := (Qlt_bool 11 _ && Qle_bool _ 11)%bool) in Hr.
  req_step Hr (fun t => Requests_when release _ t _
                 (Requests_bind (remove left_tunnel) (fun _ => remove right_tunnel)
                    t tt tt _ _ (Requests_remove left_tunnel t)
                    (Requests_remove right_tunnel _))).
  req_ask Hr.
  match type of Hr with
  | _ = when _ _ (mkTurn (issue_all gs ?L) ?L) =>
      assert (HL : L = structure_requests (turn_number gs =? 0) fill held release)
        by (unfold structure_requests, opening_requests; rewrite <- !app_assoc;
            reflexivity);
      rewrite HL in Hr; clear HL
  end.
  set (SR := structure_requests (turn_number gs =? 0) fill held release) in *.
  destruct (Qlt_bool 11 (get_resource (issue_all gs SR) 1 0)).
  - destruct (least_damage_picks (issue_all gs SR) scout_options)
      as (i & s & Hs & Hfm); [ discriminate | ].
    exists fill, held, release, (Some s).
    split; [ exact Hheld | split ].
    + unfold Requests. rewrite Hr. unfold when, bind, spawn. cbn [board plan].
      rewrite Hs. simpl push_requests. now rewrite <- issue_all_app.
    + intros s' Hs'. injection Hs' as <-. now exists i.
  - exists fill, held, release, None.
    split; [ exact Hheld | split ].
    + unfold Requests. rewrite Hr. simpl push_requests. cbn [board plan].
      now rewrite app_nil_r.
    + intros s' Hs'. discriminate Hs'.
Qed.

(** The parts a structure request of a plan can come from. *)
Lemma in_structure_requests (c : Command) (first fill : bool)
    (held : list bool) (release : bool) :
  In c (structure_requests first fill held release) ->
  (first = true /\ c = Spawn WALL wall_locations 1)
  \/ In c (opening_requests false)
  \/ (fill = true /\ c = fill_tunnels)
  \/ In c middle_requests
  \/ (exists x, In x reinforce_location /\ (c = Upgrade [x] \/ c = Spawn WALL [x] 1))
  \/ In c closing_requests
  \/ (release = true /\ (c = open_left \/ c = open_right)).
Proof.
  intros Hc. unfold structure_requests, opening_requests in Hc.
  rewrite !in_app_iff in Hc.
  destruct Hc as [ [ Hc | Hc ] | [ Hc | [ Hc | [ Hc | [ Hc | Hc ] ] ] ] ].
  - destruct first; [ | destruct Hc ].
    destruct Hc as [ <- | [] ]. left. now split.
  - right; left. exact Hc.
  - destruct fill; [ | destruct Hc ].
    destruct Hc as [ <- | [] ]. right; right; left. now split.
  - right; right; right; left. exact Hc.
  - right; right; right; right; left.
    apply in_reinforce_requests in Hc. exact Hc.
  - right; right; right; right; right; left. exact Hc.
  - destruct release; [ | destruct Hc ].
    right; right; right; right; right; right.
    split; [ reflexivity | ].
    destruct Hc as [ <- | [ <- | [] ] ]; [ now left | now right ].
Qed.

(** The plan of a turn, part by part, and the game state it leaves. *)
Lemma turn_plan_parts (gs : GS) :
  exists fill held release push,
    length held = 6%nat
    /\ turn_plan gs
       = structure_requests (turn_number gs =? 0) fill held release
         ++ push_requests push
    /\ starter_strategy (mkTurn gs [])
       = (inr tt, mkTurn (issue_all gs (turn_plan gs)) (turn_plan gs)).
Proof.
  destruct (starter_strategy_requests gs)
    as (fill & held & release & push & Hheld & Hrun & _).
  exists fill, held, release, push.
  unfold Requests in Hrun. simpl board in Hrun. simpl plan in Hrun.
  assert (Hplan : turn_plan gs
                  = structure_requests (turn_number gs =? 0) fill held release
                    ++ push_requests push)
    by (unfold turn_plan; now rewrite Hrun).
  split; [ exact Hheld | split; [ exact Hplan | ] ].
  now rewrite Hplan.
Qed.

(** X1. On every game engine and game state [starter_strategy] returns;
    its plan is the opening (the walls of the first turn on turn 0, then
    the turrets), the tunnel walls or not, five fixed requests, one request
    for each of the six reinforcement locations, three fixed requests, the
    two removals or none, and one deployment of scouts or none, in this
    order; and the game engine has been given exactly these requests, in
    this order. *)
Theorem starter_strategy_plan_form (gs : GS) :
  exists fill held release push,
    length held = 6%nat
    /\ turn_plan gs
       = structure_requests (turn_number gs =? 0) fill held release
         ++ push_requests push
    /\ starter_strategy (mkTurn gs [])
       = (inr tt, mkTurn (issue_all gs (turn_plan gs)) (turn_plan gs)).
Proof.
  destruct (starter_strategy_requests gs)
    as (fill & held & release & push & Hheld & Hrun & _).
  exists fill, held, release, push.
  unfold Requests in Hrun. simpl board in Hrun. simpl plan in Hrun.
  assert (Hplan : turn_plan gs
                  = structure_requests (turn_number gs =? 0) fill held release
                    ++ push_requests push)
    by (unfold turn_plan; now rewrite Hrun).
  split; [ exact Hheld | split; [ exact Hplan | ] ].
  now rewrite Hplan.
Qed.

(** X2. On every game state [on_turn] returns and has run [submit_turn]
    exactly once, after the strategy has made all the requests of its
    plan: the one submission is the whole plan of the turn, which is never
    empty. *)
Theorem on_turn_submits_once (gs : GS) :
  on_turn gs
  = (inr tt, (mkTurn (issue_all gs (turn_plan gs)) (turn_plan gs),
              [turn_plan gs]))
  /\ turn_plan gs <> [].
Proof.
  destruct (turn_plan_parts gs)
    as (fill & held & release & push & _ & Hplan & Hrun).
  split.
  - unfold on_turn, bind, on_fst, submit_turn. cbn [fst snd].
    rewrite Hrun. reflexivity.
  - rewrite Hplan. unfold structure_requests, opening_requests.
    destruct (turn_number gs =? 0); discriminate.
Qed.

(** X3. On every game engine the walls of the first turn are requested
    exactly on turn 0. *)
Theorem first_turn_walls_iff_turn_zero (gs : GS) :
  In (Spawn WALL wall_locations 1) (turn_plan gs) <-> turn_number gs = 0.
Proof.
  destruct (turn_plan_parts gs)
    as (fill & held & release & push & _ & Hplan & _).
  rewrite Hplan, in_app_iff. split.
  - intros [ Hc | Hc ].
    + apply in_structure_requests in Hc.
      destruct Hc as [ (Hf & _) | [ Hc | [ (_ & Hc) | [ Hc | [ (x & _ & Hc) | [ Hc | (_ & Hc) ] ] ] ] ] ].
      * now apply Z.eqb_eq.
      * refute_request Hc.
      * refute_request Hc.
      * refute_request Hc.
      * refute_request Hc.
      * refute_request Hc.
      * refute_request Hc.
    + destruct push; refute_request Hc.
  - intros Hturn. left. unfold structure_requests, opening_requests.
    apply Z.eqb_eq in Hturn. rewrite Hturn.
    apply in_or_app. left. apply in_or_app. left. now left.
Qed.

(** X4. On every game engine the eleven requests around the tests are
    made every turn, whatever the resources and the board. *)
Theorem fixed_requests_every_turn (gs : GS) (c : Command) :
  In c (opening_requests false ++ middle_requests ++ closing_requests) ->
  In c (turn_plan gs).
Proof.
  destruct (turn_plan_parts gs)
    as (fill & held & release & push & _ & Hplan & _).
  rewrite Hplan. unfold structure_requests, opening_requests.
  rewrite !in_app_iff. unfold middle_requests, closing_requests.
  cbn [In]. tauto.
Qed.

(** X5. On every game engine, for each of the six reinforcement locations
    [x] the plan holds exactly one of the two requests of the reinforcement
    loop for [x]: the upgrade of [x] alone, or the wall at [x] alone, never
    both and never neither. (Other requests of the plan may name [x] among
    their locations: the first pair of side walls names (1,12) and
    (26,12).) *)
Theorem reinforcement_upgrades_or_builds (gs : GS) (x : Location) :
  In x reinforce_location ->
  (In (Upgrade [x]) (turn_plan gs) /\ ~ In (Spawn WALL [x] 1) (turn_plan gs))
  \/ (~ In (Upgrade [x]) (turn_plan gs) /\ In (Spawn WALL [x] 1) (turn_plan gs)).
Proof.
  intros Hx.
  destruct (turn_plan_parts gs)
    as (fill & held & release & push & Hheld & Hplan & _).
  assert (Honly : forall c, c = Upgrade [x] \/ c = Spawn WALL [x] 1 ->
                  (In c (turn_plan gs)
                   <-> In c (reinforce_requests reinforce_location held))).
  { intros c Hc. rewrite Hplan. unfold structure_requests, opening_requests.
    rewrite !in_app_iff. split; [ | tauto ].
    intros [ [ [ Hin | Hin ] | [ Hin | [ Hin | [ Hin | [ Hin | Hin ] ] ] ] ] | Hin ];
      try exact Hin;
      try (destruct (turn_number gs =? 0));
      try destruct fill; try destruct release; try destruct push;
      destruct Hc as [ -> | -> ]; refute_request Hin. }
  destruct (reinforce_requests_one reinforce_location reinforce_location_NoDup
              held x Hheld Hx) as [ (Hu & Hw) | (Hu & Hw) ].
  - left. split.
    + apply Honly; [ now left | exact Hu ].
    + intros Hin. apply Hw. apply Honly in Hin; [ exact Hin | now right ].
  - right. split.
    + intros Hin. apply Hu. apply Honly in Hin; [ exact Hin | now left ].
    + apply Honly; [ now right | exact Hw ].
Qed.

(** X6. On every game engine a plan holds nothing but walls and turrets
    (one per location), upgrades, removals of the left or the right tunnel,
    and scouts by the hundred at one of the eight start locations: no
    support, demolisher or interceptor is ever requested, and nothing but
    the tunnels is ever removed. *)
Theorem plan_holds_expected_requests (gs : GS) :
  Forall expected_request (turn_plan gs).
Proof.
  destruct (starter_strategy_requests gs)
    as (fill & held & release & push & _ & Hrun & Hpush).
  unfold Requests in Hrun. simpl board in Hrun. simpl plan in Hrun.
  unfold turn_plan. rewrite Hrun. simpl plan.
  apply Forall_forall. intros c Hc. apply in_app_iff in Hc.
  destruct Hc as [ Hc | Hc ].
  - apply in_structure_requests in Hc.
    destruct Hc as [ (_ & ->) | [ Hc | [ (_ & ->) | [ Hc | [ (x & _ & Hc) | [ Hc | (_ & Hc) ] ] ] ] ] ].
    + simpl. left. split; [ now left | reflexivity ].
    + simpl in Hc. destruct Hc as [ <- | [ <- | [ <- | [] ] ] ]; simpl; auto.
    + simpl. left. split; [ now left | reflexivity ].
    + simpl in Hc.
      destruct Hc as [ <- | [ <- | [ <- | [ <- | [ <- | [] ] ] ] ] ]; simpl; auto.
    + destruct Hc as [ -> | -> ]; simpl; auto.
    + simpl in Hc. destruct Hc as [ <- | [ <- | [ <- | [] ] ] ]; simpl; auto.
    + destruct Hc as [ -> | -> ]; simpl; auto.
  - destruct push as [ s | ]; [ | destruct Hc ].
    destruct Hc as [ <- | [] ].
    destruct (Hpush s eq_refl) as (i & Hnth & _).
    assert (Hin : In s scout_options) by (eapply nth_error_In; eauto).
    right. split; [ reflexivity | split; [ reflexivity | ] ].
    exists s. split; [ exact Hin | reflexivity ].
Qed.

(** X7. On every game engine the scouts, when the plan deploys them, are
    its last request, and their start location is the first of the eight
    start locations with the least damage estimate on the game state as
    the requests before have left it: the structures requested in the same
    turn are taken into account. *)
Theorem scouts_start_where_damage_is_least (gs : GS) (s : Location) :
  In (Spawn SCOUT [s] 100) (turn_plan gs) ->
  exists pre i,
    turn_plan gs = pre ++ [Spawn SCOUT [s] 100]
    /\ first_min (fun o => compute_damage (issue_all gs pre) o 0)
         scout_options i s.
Proof.
  destruct (starter_strategy_requests gs)
    as (fill & held & release & push & _ & Hrun & Hpush).
  unfold Requests in Hrun. simpl board in Hrun. simpl plan in Hrun.
  unfold turn_plan. rewrite Hrun. simpl plan.
  intros Hc. apply in_app_iff in Hc. destruct Hc as [ Hc | Hc ].
  - exfalso. apply in_structure_requests in Hc.
    destruct Hc as [ (_ & Hc) | [ Hc | [ (_ & Hc) | [ Hc | [ (x & _ & Hc) | [ Hc | (_ & Hc) ] ] ] ] ] ];
      refute_request Hc.
  - destruct push as [ s' | ]; [ | destruct Hc ].
    destruct Hc as [ Hc | [] ]. injection Hc as ->.
    destruct (Hpush s eq_refl) as (i & Hfm).
    exists (structure_requests (turn_number gs =? 0) fill held release), i.
    split; [ reflexivity | exact Hfm ].
Qed.

End SessionFacts.

Section FramedFacts.
Context {GS : Type} `{GameLib GS} `{!KeepsMobility GS}.

(** C1, amended. On a game engine whose structure requests leave the
    mobility resource alone, [starter_strategy] returns, and its plan holds
    the request that fills the two tunnels (the one placement of walls over
    the left and the right tunnel list together) exactly when the mobility
    resource ([get_resource(1, 0)], with [MP = 1]) is at most 11, and
    deploys scouts exactly when it is above 11; in particular, at 12 that
    request is not in the plan and scouts are deployed. The structure
    resource ([SP = 0]) is not looked at. Walls at single tunnel cells are
    asked for by other requests too: at (6,10) and (21,10) by the side
    walls of every turn, and at each of the other six cells exactly when
    the tunnels are filled or the turn is turn 0. *)
Theorem tunnels_filled_iff_mobility_low (gs : GS) :
  fst (starter_strategy (mkTurn gs [])) = inr tt
  /\ (In fill_tunnels (turn_plan gs) <-> (get_resource gs MP 0 <= 11)%Q)
  /\ (deploys_scouts (turn_plan gs) <-> (11 < get_resource gs MP 0)%Q)
  /\ ((get_resource gs MP 0 == 12)%Q ->
      ~ In fill_tunnels (turn_plan gs) /\ deploys_scouts (turn_plan gs))
  /\ (forall x, In x tunnel_mouths -> wall_requested_at x (turn_plan gs))
  /\ (forall x, In x tunnel_walls ->
        (wall_requested_at x (turn_plan gs)
         <-> (get_resource gs MP 0 <= 11)%Q \/ turn_number gs = 0)).
Proof.
  destruct (turn_plan_signals gs) as (Hret & start & Hsig).
  assert (Hfill : In fill_tunnels (turn_plan gs) <-> (get_resource gs MP 0 <= 11)%Q).
  { rewrite (in_signals fill_tunnels) by reflexivity.
    rewrite Hsig. apply fill_in_gate_signals. }
  assert (Hscout : deploys_scouts (turn_plan gs) <-> (11 < get_resource gs MP 0)%Q).
  { unfold deploys_scouts. split.
    - intros (x & Hx). rewrite (in_signals (Spawn SCOUT [x] 100)) in Hx by reflexivity.
      rewrite Hsig in Hx. apply scouts_in_gate_signals in Hx. apply Hx.
    - intros Hmp. exists start.
      rewrite (in_signals (Spawn SCOUT [start] 100)) by reflexivity.
      rewrite Hsig. apply scouts_in_gate_signals. now split. }
  split; [ exact Hret | split; [ exact Hfill | split; [ exact Hscout | split ] ] ].
  { intros Htwelve. split.
    - intros Hin. apply Hfill in Hin. lra.
    - apply Hscout. lra. }
  destruct (turn_plan_parts gs)
    as (fill & held & release & push & _ & Hplan & _).
  rewrite Hplan in Hfill. rewrite fill_in_plan_parts in Hfill.
  rewrite Hplan. split.
  - intros x Hx. now apply tunnel_mouth_in_plan_parts.
  - intros x Hx. rewrite (tunnel_wall_in_plan_parts x _ _ _ _ _ Hx).
    rewrite Hfill, Z.eqb_eq. reflexivity.
Qed.

(** X8. On a game engine whose structure requests leave the mobility
    resource and its forecast alone, a plan that opens a tunnel also fills
    the tunnels and deploys no scouts, and a plan fills the tunnels exactly
    when it deploys no scouts. *)
Theorem tunnels_opened_only_without_push (gs : GS) :
  (In open_left (turn_plan gs) \/ In open_right (turn_plan gs) ->
   In fill_tunnels (turn_plan gs) /\ ~ deploys_scouts (turn_plan gs))
  /\ (In fill_tunnels (turn_plan gs) <-> ~ deploys_scouts (turn_plan gs)).
Proof.
  destruct (turn_plan_signals gs) as (_ & start & Hsig).
  set (mp := get_resource gs 1 0) in *. set (fut := project_future_MP gs) in *.
  assert (Hfill : In fill_tunnels (turn_plan gs) <-> (mp <= 11)%Q).
  { rewrite (in_signals fill_tunnels) by reflexivity.
    rewrite Hsig. apply fill_in_gate_signals. }
  assert (Hscout : deploys_scouts (turn_plan gs) <-> (11 < mp)%Q).
  { unfold deploys_scouts. split.
    - intros (x & Hx). rewrite (in_signals (Spawn SCOUT [x] 100)) in Hx by reflexivity.
      rewrite Hsig in Hx. apply scouts_in_gate_signals in Hx. apply Hx.
    - intros Hmp. exists start.
      rewrite (in_signals (Spawn SCOUT [start] 100)) by reflexivity.
      rewrite Hsig. apply scouts_in_gate_signals. now split. }
  assert (Hopen : In open_left (turn_plan gs) \/ In open_right (turn_plan gs) ->
                  (mp <= 11)%Q).
  { destruct (open_in_gate_signals mp fut start) as (Hl & Hr).
    rewrite <- Hsig in Hl, Hr.
    rewrite <- (in_signals open_left) in Hl by reflexivity.
    rewrite <- (in_signals open_right) in Hr by reflexivity.
    intros [ Ho | Ho ]; [ apply Hl in Ho | apply Hr in Ho ]; apply Ho. }
  split.
  - intros Ho. apply Hopen in Ho. split; [ now apply Hfill | ].
    intros Hs. apply Hscout in Hs. lra.
  - rewrite Hfill, Hscout. split.
    + intros Hle Hlt. lra.
    + intros Hn. apply Qnot_lt_le. exact Hn.
Qed.

End FramedFacts.

(** The plan of a turn with 12 mobility points on the arena. *)
Lemma tunnels_filled_iff_mobility_low_witness :
  fst (starter_strategy (mkTurn pushing_arena [])) = inr tt
  /\ (In fill_tunnels (turn_plan pushing_arena)
      <-> (get_resource pushing_arena MP 0 <= 11)%Q)
  /\ (deploys_scouts (turn_plan pushing_arena)
      <-> (11 < get_resource pushing_arena MP 0)%Q)
  /\ ((get_resource pushing_arena MP 0 == 12)%Q ->
      ~ In fill_tunnels (turn_plan pushing_arena)
      /\ deploys_scouts (turn_plan pushing_arena))
  /\ (forall x, In x tunnel_mouths -> wall_requested_at x (turn_plan pushing_arena))
  /\ (forall x, In x tunnel_walls ->
        (wall_requested_at x (turn_plan pushing_arena)
         <-> (get_resource pushing_arena MP 0 <= 11)%Q
             \/ turn_number pushing_arena = 0)).
Proof.
  exact (@tunnels_filled_iff_mobility_low Arena arena_gamelib
           arena_keeps_mobility pushing_arena).
Defined.

(** The plan of a turn with 11 mobility points and 15 forecast on the
    arena opens the tunnels. *)
Lemma tunnels_opened_only_without_push_witness :
  (In open_left (turn_plan waiting_arena) \/ In open_right (turn_plan waiting_arena) ->
   In fill_tunnels (turn_plan waiting_arena)
   /\ ~ deploys_scouts (turn_plan waiting_arena))
  /\ (In fill_tunnels (turn_plan waiting_arena)
      <-> ~ deploys_scouts (turn_plan waiting_arena)).
Proof.
  exact (@tunnels_opened_only_without_push Arena arena_gamelib
           arena_keeps_mobility waiting_arena).
Defined.

(** ** More on the threat estimator *)

Section EstimatorMore.
Context {GS : Type} `{GameLib GS}.

(** X9. A first candidate whose damage estimate no other candidate
    undercuts is the one returned: ties go to the first, and a single
    candidate is returned as it is. *)
Theorem least_damage_first_candidate_wins (gs : GS) (o : Location)
    (rest : list Location) :
  (forall c, In c rest -> (compute_damage gs o 0 <= compute_damage gs c 0)%Q) ->
  least_damage_spawn_location gs (o :: rest) = inr o.
Proof.
  intros Hlow.
  destruct (least_damage_picks gs (o :: rest)) as (i & loc & Hr & Hi & _ & Hfirst);
    [ discriminate | ].
  rewrite Hr. destruct i as [ | i ].
  - simpl in Hi. congruence.
  - exfalso. simpl in Hi. apply nth_error_In in Hi.
    specialize (Hfirst 0%nat o (Nat.lt_0_succ i) eq_refl).
    specialize (Hlow loc Hi). lra.
Qed.

(** X10. When the turret's damage is not negative and one of the
    candidates has no path, the location returned has the estimate 0: a
    start location from which nothing can leave counts as a safest one. *)
Theorem least_damage_is_zero_with_pathless_candidate (gs : GS)
    (opts : list Location) (o : Location) :
  (0 <= damage_i gs TURRET)%Q ->
  In o opts ->
  find_path_to_edge gs o = [] ->
  exists loc,
    least_damage_spawn_location gs opts = inr loc
    /\ (compute_damage gs loc 0 == 0)%Q.
Proof.
  intros Hd Ho Hpath.
  destruct (least_damage_picks gs opts) as (i & loc & Hr & _ & Hlow & _).
  { intros ->. destruct Ho. }
  exists loc. split; [ exact Hr | ].
  assert (Hzero : compute_damage gs o 0 = 0%Q)
    by (unfold compute_damage; now rewrite Hpath).
  specialize (Hlow o Ho). rewrite Hzero in Hlow.
  assert (Hnonneg : (0 <= compute_damage gs loc 0)%Q).
  { rewrite compute_damage_sum. apply Qsum_nonneg.
    intros x Hx. apply in_map_iff in Hx. destruct Hx as (l & <- & _).
    now apply shots_nonneg. }
  lra.
Qed.

(** X11. [enemy_least_damage_target] raises the [ValueError] of [min]
    exactly when neither top edge has a location. *)
Theorem enemy_least_damage_target_without_candidates (gs : GS) :
  enemy_least_damage_target gs = inl ValueError <-> enemy_options gs = [].
Proof.
  split.
  - intros Hr. destruct (enemy_options gs) as [ | o opts ] eqn:Hopts;
      [ reflexivity | exfalso ].
    destruct (enemy_target_picks gs) as (i & c & _ & Hpick);
      [ rewrite Hopts; discriminate | ].
    rewrite Hpick in Hr.
    destruct (find_path_to_edge gs c); discriminate Hr.
  - intros Hopts. unfold enemy_least_damage_target. rewrite Hopts. reflexivity.
Qed.

End EstimatorMore.

(** Two start locations of the duel board, the safer one first. *)
Lemma least_damage_first_candidate_wins_witness :
  least_damage_spawn_location duel_arena [(13,0); (14,0)] = inr (13,0).
Proof.
  apply (@least_damage_first_candidate_wins Arena arena_gamelib duel_arena
           (13,0) [(14,0)]).
  intros c [ <- | [] ]. vm_compute. intros Hc. discriminate Hc.
Defined.

(** On the sealed board nothing leaves from (13,0). *)
Lemma least_damage_is_zero_with_pathless_candidate_witness :
  exists loc,
    least_damage_spawn_location sealed_arena [(14,27); (13,0)] = inr loc
    /\ (compute_damage sealed_arena loc 0 == 0)%Q.
Proof.
  apply (@least_damage_is_zero_with_pathless_candidate Arena arena_gamelib
           sealed_arena [(14,27); (13,0)] (13,0)).
  - vm_compute. intros Hc. discriminate Hc.
  - right. now left.
  - reflexivity.
Defined.

(** ** More on frames *)

Lemma lookup_absent (k : string) (d : list (string * json)) :
  (forall v, ~ In (k, v) d) -> lookup k d = inl KeyError.
Proof.
  induction d as [ | (k', v') d IH ]; intros Habs; simpl.
  - reflexivity.
  - destruct (String.eqb k k') eqn:E.
    + apply String.eqb_eq in E. subst k'. exfalso. apply (Habs v'). now left.
    + apply IH. intros v Hv. apply (Habs v). now right.
Qed.

Lemma py_getitem_beyond {A : Type} (xs : list A) (i : Z) :
  Z.of_nat (length xs) <= i -> py_getitem xs i = inl IndexError.
Proof.
  intros Hi. unfold py_getitem.
  destruct (i <? 0) eqn:E0; [ apply Z.ltb_lt in E0; lia | ].
  destruct (i <? 0) eqn:E1; [ congruence | ].
  destruct (Z.of_nat (length xs) <=? i) eqn:E2; [ reflexivity | ].
  apply Z.leb_gt in E2. lia.
Qed.

(** An event with fewer than five elements raises [IndexError] and
    records nothing. *)
Lemma record_breach_short (short : list json) (h : History) :
  (length short < 5)%nat ->
  record_breach (JList short) h = (inl IndexError, h).
Proof.
  intros Hlen. unfold record_breach, bind, lift. simpl py_subscript.
  rewrite (py_getitem_beyond short 4) by lia.
  destruct short as [ | a short ]; reflexivity.
Qed.

Lemma for_each_app {St A : Type} (xs ys : list A) (body : A -> Prog St unit)
    (s s' : St) :
  for_each xs body s = (inr tt, s') ->
  for_each (xs ++ ys) body s = for_each ys body s'.
Proof.
  revert s. induction xs as [ | x xs IH ]; intros s Hrun; simpl in *.
  - unfold ret in Hrun. congruence.
  - unfold bind in *. destruct (body x s) as [ [ e | [] ] s1 ]; [ discriminate Hrun | ].
    now apply IH.
Qed.

Lemma scored_on_app (bs1 bs2 : list Breach) :
  scored_on (bs1 ++ bs2) = scored_on bs1 ++ scored_on bs2.
Proof. unfold scored_on. now rewrite filter_app, map_app. Qed.

(** X13. A frame that cannot be read raises and leaves the history as it
    was: [KeyError] for a frame without the key [events] and for events
    without the key [breach], [TypeError] for a frame that is no object and
    for a breach value that is null, a boolean or a number. *)
Theorem on_action_frame_unreadable (h : History) :
  (forall d, (forall v, ~ In ("events"%string, v) d) ->
             on_action_frame (JDict d) h = (inl KeyError, h))
  /\ (forall state,
        match state with JDict _ => False | _ => True end ->
        on_action_frame state h = (inl TypeError, h))
  /\ (forall state d,
        py_getitem_str state "events" = inr (JDict d) ->
        (forall v, ~ In ("breach"%string, v) d) ->
        on_action_frame state h = (inl KeyError, h))
  /\ (forall state events breaches,
        py_getitem_str state "events" = inr events ->
        py_getitem_str events "breach" = inr breaches ->
        match breaches with
        | JNull | JBool _ | JInt _ | JFloat _ => True
        | JStr _ | JList _ | JDict _ => False
        end ->
        on_action_frame state h = (inl TypeError, h)).
Proof.
  unfold on_action_frame, bind, lift. repeat split.
  - intros d Habs. simpl py_getitem_str. now rewrite (lookup_absent _ _ Habs).
  - intros state Hstate. destruct state; try contradiction; reflexivity.
  - intros state d Hev Habs. rewrite Hev. simpl py_getitem_str.
    now rewrite (lookup_absent _ _ Habs).
  - intros state events breaches Hev Hbr Hkind. rewrite Hev, Hbr.
    destruct breaches; try contradiction; reflexivity.
Qed.

(** X14. An event with fewer than five elements stops the frame: the call
    raises [IndexError], the locations of the events before it are kept in
    the history, and the events after it are not looked at. *)
Theorem short_event_stops_the_frame (state : json) (bs : list Breach)
    (short rest : list json) (h : History) :
  carries_items state (map breach_json bs ++ JList short :: rest) ->
  (length short < 5)%nat ->
  on_action_frame state h = (inl IndexError, h ++ scored_on bs).
Proof.
  intros (events & Hev & Hbr) Hlen.
  unfold on_action_frame, bind, lift. rewrite Hev, Hbr. simpl py_iter. cbv iota.
  rewrite (for_each_app _ _ _ _ _ (for_each_record_breach bs h)).
  simpl for_each. unfold bind. now rewrite record_breach_short.
Qed.

(** X15. Over frames that carry breach events the history is the
    concatenation of what each frame adds: it is the same whether the
    events arrive in one frame or spread over several, and nothing is
    merged or dropped. *)
Theorem history_over_frames (states : list json) (bss : list (list Breach))
    (h : History) :
  Forall2 carries states bss ->
  after_frames states h = h ++ scored_on (concat bss).
Proof.
  intros Hall. revert h. unfold after_frames.
  induction Hall as [ | state bs states bss Hc _ IH ]; intros h; simpl.
  - now rewrite app_nil_r.
  - rewrite (on_action_frame_carries state bs h Hc). simpl snd.
    now rewrite IH, scored_on_app, app_assoc.
Qed.

(** A frame with a breach by the opponent, an event cut short, and
    another breach by the opponent. *)
Lemma short_event_stops_the_frame_witness :
  on_action_frame
    (JDict [("events"%string,
             JDict [("breach"%string,
                     JList [breach_json (breach_at (5,7) 2);
                            JList [loc_json (6,7); JInt 1];
                            breach_json (breach_at (8,7) 2)])])])
    []
  = (inl IndexError, [loc_json (5,7)]).
Proof.
  apply (short_event_stops_the_frame _ [breach_at (5,7) 2]
           [loc_json (6,7); JInt 1] [breach_json (breach_at (8,7) 2)] []).
  - eexists. split; reflexivity.
  - simpl. lia.
Defined.

(** Two breaches by the opponent in one frame, and in two. *)
Lemma history_over_frames_witness :
  after_frames [frame_of [breach_at (5,7) 2; breach_at (6,7) 2]] []
  = [loc_json (5,7); loc_json (6,7)]
  /\ after_frames [frame_of [breach_at (5,7) 2]; frame_of [breach_at (6,7) 2]] []
     = [loc_json (5,7); loc_json (6,7)].
Proof.
  split.
  - apply (history_over_frames _ [[breach_at (5,7) 2; breach_at (6,7) 2]] []).
    repeat constructor; apply carries_frame_of.
  - apply (history_over_frames _ [[breach_at (5,7) 2]; [breach_at (6,7) 2]] []).
    repeat constructor; apply carries_frame_of.
Defined.

(** ** The start of a game *)

Lemma assign_unit_run (u : UnitType) (config : json) (i : Z) (s : Algo) :
  assign_unit u config i s
  = match unit_shorthand config i with
    | inl e => (inl e, s)
    | inr v => (inr tt, with_shorthand u v s)
    end.
Proof.
  unfold assign_unit, bind, lift. destruct (unit_shorthand config i); reflexivity.
Qed.

(** The state after a start that read the six shorthands. *)
Lemma on_game_start_run (config : json) (s : Algo) :
  on_game_start config s
  = let s0 := mkAlgo (Some config) (algo_shorthand s) (algo_MP s) (algo_SP s)
                (algo_scored_on_locations s) in
    match unit_shorthand config 0 with
    | inl e => (inl e, s0)
    | inr v0 =>
    let s1 := with_shorthand WALL v0 s0 in
    match unit_shorthand config 1 with
    | inl e => (inl e, s1)
    | inr v1 =>
    let s2 := with_shorthand SUPPORT v1 s1 in
    match unit_shorthand config 2 with
    | inl e => (inl e, s2)
    | inr v2 =>
    let s3 := with_shorthand TURRET v2 s2 in
    match unit_shorthand config 3 with
    | inl e => (inl e, s3)
    | inr v3 =>
    let s4 := with_shorthand SCOUT v3 s3 in
    match unit_shorthand config 4 with
    | inl e => (inl e, s4)
    | inr v4 =>
    let s5 := with_shorthand DEMOLISHER v4 s4 in
    match unit_shorthand config 5 with
    | inl e => (inl e, s5)
    | inr v5 =>
        (inr tt,
         mkAlgo (Some config)
           (algo_shorthand (with_shorthand INTERCEPTOR v5 s5))
           (Some 1) (Some 0) (Some []))
    end end end end end end.
Proof.
  unfold on_game_start, bind, set_config.
  repeat (rewrite assign_unit_run;
          match goal with
          | |- context [unit_shorthand config ?i] =>
              destruct (unit_shorthand config i); [ reflexivity | ]
          end).
  reflexivity.
Qed.

(** X16. [on_game_start] either returns, with an empty breach history,
    [MP = 1] and [SP = 0], or raises and leaves the breach history and the
    two resource names as they were; the configuration is stored either
    way. *)
Theorem on_game_start_resets_or_keeps (config : json) (s : Algo) :
  (exists s',
     on_game_start config s = (inr tt, s')
     /\ algo_scored_on_locations s' = Some []
     /\ algo_MP s' = Some 1 /\ algo_SP s' = Some 0
     /\ algo_config s' = Some config)
  \/ (exists e s',
        on_game_start config s = (inl e, s')
        /\ algo_scored_on_locations s' = algo_scored_on_locations s
        /\ algo_MP s' = algo_MP s /\ algo_SP s' = algo_SP s
        /\ algo_config s' = Some config).
Proof.
  rewrite on_game_start_run. cbv zeta.
  repeat match goal with
         | |- context [unit_shorthand config ?i] =>
             destruct (unit_shorthand config i);
             [ right; eexists _, _; repeat split | ]
         end.
  left. eexists. repeat split.
Qed.

(** The start fails when the unit [u] cannot be read. *)
Ltac unreadable u :=
  split; [ split | ];
  [ intros (s' & Hs'); discriminate Hs'
  | intros Hall; destruct (Hall u) as (v & Hv); simpl in Hv; congruence
  | intros s' u' v Hs'; discriminate Hs' ].

(** X17. [on_game_start] returns exactly when the shorthand of each of
    the six units can be read from the configuration, and then each unit's
    name is the shorthand of its entry: entry 0 for the wall, 1 for the
    support, 2 for the turret, 3 for the scout, 4 for the demolisher and 5
    for the interceptor. *)
Theorem on_game_start_binds_units (config : json) (s : Algo) :
  ((exists s', on_game_start config s = (inr tt, s'))
   <-> (forall u, exists v, unit_shorthand config (unit_index u) = inr v))
  /\ (forall s' u v,
        on_game_start config s = (inr tt, s') ->
        unit_shorthand config (unit_index u) = inr v ->
        algo_shorthand s' u = Some v).
Proof.
  rewrite on_game_start_run. cbv zeta.
  destruct (unit_shorthand config 0) as [ e0 | v0 ] eqn:E0;
    [ unreadable WALL | ].
  destruct (unit_shorthand config 1) as [ e1 | v1 ] eqn:E1;
    [ unreadable SUPPORT | ].
  destruct (unit_shorthand config 2) as [ e2 | v2 ] eqn:E2;
    [ unreadable TURRET | ].
  destruct (unit_shorthand config 3) as [ e3 | v3 ] eqn:E3;
    [ unreadable SCOUT | ].
  destruct (unit_shorthand config 4) as [ e4 | v4 ] eqn:E4;
    [ unreadable DEMOLISHER | ].
  destruct (unit_shorthand config 5) as [ e5 | v5 ] eqn:E5;
    [ unreadable INTERCEPTOR | ].
  split; [ split | ].
  - intros _ u. destruct u; simpl; eauto.
  - intros _. eexists. reflexivity.
  - intros s' u v Hs' Hv. injection Hs' as <-.
    destruct u; simpl in Hv; cbn; congruence.
Qed.

(** X18. [on_game_start] raises the error of the first unit whose
    shorthand cannot be read: the units before it have their new names by
    then, the later ones keep the names they had, and the breach history is
    not reset. *)
Theorem on_game_start_raises_at_first_unreadable_unit (config : json)
    (s : Algo) (u : UnitType) (e : PyExc) :
  (forall u', unit_index u' < unit_index u ->
              exists v, unit_shorthand config (unit_index u') = inr v) ->
  unit_shorthand config (unit_index u) = inl e ->
  exists s',
    on_game_start config s = (inl e, s')
    /\ algo_scored_on_locations s' = algo_scored_on_locations s
    /\ (forall u' v, unit_index u' < unit_index u ->
          unit_shorthand config (unit_index u') = inr v ->
          algo_shorthand s' u' = Some v)
    /\ (forall u', unit_index u <= unit_index u' ->
          algo_shorthand s' u' = algo_shorthand s u').
Proof.
  intros Hbefore Hu. rewrite on_game_start_run. cbv zeta.
  destruct u; simpl in Hu;
    repeat match goal with
           | |- context [match unit_shorthand config ?i with _ => _ end] =>
               first
                 [ rewrite Hu
                 | let v := fresh "v" in
                   let E := fresh "E" in
                   assert (Hv : exists v, unit_shorthand config i = inr v)
                     by (first [ apply (Hbefore WALL) | apply (Hbefore SUPPORT)
                               | apply (Hbefore TURRET) | apply (Hbefore SCOUT)
                               | apply (Hbefore DEMOLISHER) ]; simpl; lia);
                   destruct Hv as (v & E); rewrite E ]
           end;
    (eexists; split; [ reflexivity | split; [ reflexivity | split;
       [ intros u' v' Hlt Hv'; destruct u'; simpl in Hlt, Hv'; try lia;
         cbn; congruence
       | intros u' Hge; destruct u'; simpl in Hge; try lia; reflexivity ] ] ]).
Qed.

(** A configuration with three unit entries: the fourth unit, the scout,
    cannot be read. *)
Lemma on_game_start_raises_at_first_unreadable_unit_witness :
  exists s',
    on_game_start (config_of ["FF"; "EF"; "DF"]%string)
      (mkAlgo None (fun _ => None) None None (Some [loc_json (5,7)]))
    = (inl IndexError, s')
    /\ algo_scored_on_locations s' = Some [loc_json (5,7)]
    /\ algo_shorthand s' WALL = Some (JStr "FF")
    /\ algo_shorthand s' SCOUT = None.
Proof.
  destruct (on_game_start_raises_at_first_unreadable_unit
              (config_of ["FF"; "EF"; "DF"]%string)
              (mkAlgo None (fun _ => None) None None (Some [loc_json (5,7)]))
              SCOUT IndexError)
    as (s' & Hrun & Hhist & Hnew & Hold).
  - intros u' Hlt. destruct u'; simpl in Hlt; try lia; eexists; reflexivity.
  - reflexivity.
  - exists s'. split; [ exact Hrun | split; [ exact Hhist | split ] ].
    + apply Hnew; [ simpl; lia | reflexivity ].
    + apply (Hold SCOUT). simpl. lia.
Defined.

(** ** The whole turn on the arena *)

(** The second pair of turrets is upgraded on the quiet turn too. *)
Lemma fixed_requests_every_turn_witness :
  In (Upgrade [(9,9); (18,9)]) (turn_plan saving_arena).
Proof.
  refine (@fixed_requests_every_turn Arena arena_gamelib saving_arena
            (Upgrade [(9,9); (18,9)]) _).
  unfold opening_requests, middle_requests, closing_requests.
  rewrite !in_app_iff. right. left. cbn [In]. tauto.
Defined.

(** The corner (0,13) on the quiet turn. *)
Lemma reinforcement_upgrades_or_builds_witness :
  (In (Upgrade [(0,13)]) (turn_plan saving_arena)
   /\ ~ In (Spawn WALL [(0,13)] 1) (turn_plan saving_arena))
  \/ (~ In (Upgrade [(0,13)]) (turn_plan saving_arena)
      /\ In (Spawn WALL [(0,13)] 1) (turn_plan saving_arena)).
Proof.
  refine (@reinforcement_upgrades_or_builds Arena arena_gamelib saving_arena
            (0,13) _).
  now left.
Defined.

(** The scouts of the turn with 12 mobility points. *)
Lemma scouts_start_where_damage_is_least_witness :
  exists pre i,
    turn_plan pushing_arena = pre ++ [Spawn SCOUT [(10,3)] 100]
    /\ first_min (fun o => compute_damage (issue_all pushing_arena pre) o 0)
         scout_options i (10,3).
Proof.
  refine (@scouts_start_where_damage_is_least Arena arena_gamelib pushing_arena
            (10,3) _).
  apply (proj2 (in_signals (Spawn SCOUT [(10,3)] 100) (turn_plan pushing_arena)
                  eq_refl)).
  rewrite pushing_arena_signals. now left.
Defined.
